(** * gojieba: the cgo bridge of jieba.go

    A shallow embedding of [jieba.go]: the [Jieba] handle, its construction
    ([NewJieba]), the process-wide shared instance ([GetSharedInstance]),
    the one-shot release ([Free]), the freed guard ([checkFreed]), the
    query and dictionary operations, and the converter [cwordweights].

    The Go code is sequential code over a heap of [Jieba] objects and three
    package-level variables; it talks to the outside through cgo calls, the
    [os], [runtime], [sync] and [sync/atomic] packages.  Every such action is
    recorded, in program order, in a trace, so that statements such as
    "before any native call" are statements about that trace.  Panics are
    results, and [defer] is a combinator that runs on both exits. *)

From Stdlib Require Import ZArith List String Lia.
From stdpp Require Import base gmap list strings.

(** ** Go and C data *)

(** Address of a [Jieba] object on the Go heap; [*Jieba] is [ptr], with
    [None] for [nil]. *)
Definition loc := positive.
Definition ptr := option loc.

(** [C.Jieba] is an opaque native pointer ([void*]); [0] is [nil]. *)
Definition C_Jieba := Z.
Definition C_nil : C_Jieba := 0%Z.

(** [type Jieba struct { jieba C.Jieba; freed int32 }] *)
Record Jieba := mkJieba { jieba : C_Jieba; freed : Z }.
Arguments mkJieba (jieba freed)%_Z.

(** [type TokenizeMode int] with [DefaultMode = iota], [SearchMode]. *)
Definition TokenizeMode := Z.
Definition DefaultMode : TokenizeMode := 0%Z.
Definition SearchMode : TokenizeMode := 1%Z.

(** [type Word struct { Str string; Start int; End int }] *)
Record Word := mkWord { Str : string; Start : Z; End : Z }.

(** A [float64] is kept as its IEEE-754 bit pattern; the conversion
    [float64(C.double)] is the identity on it. *)
Definition float64 := Z.

(** [type WordWeight struct { Word string; Weight float64 }] *)
Record WordWeight := mkWordWeight { ww_Word : string; ww_Weight : float64 }.
Arguments mkWordWeight ww_Word ww_Weight%_Z.

(** [struct CWordWeight { char* word; double weight; }]: the [word] field
    is [None] for a null pointer and [Some s] for a pointer to the
    NUL-terminated bytes of [s] (what [C.GoString] copies). *)
Record CWordWeight := mkCWordWeight { cw_word : option string; cw_weight : float64 }.
Arguments mkCWordWeight cw_word cw_weight%_Z.

(** The five entries of the array returned by [getDictPaths]. *)
Record DictPaths := mkDictPaths
  { dp0 : string; dp1 : string; dp2 : string; dp3 : string; dp4 : string }.

Definition dp_list (d : DictPaths) : list string :=
  [dp0 d; dp1 d; dp2 d; dp3 d; dp4 d].

(** [C.int(n)]: conversion of a Go [int] to a 32-bit C [int] wraps. *)
Definition C_int (n : Z) : Z := ((n + 2 ^ 31) mod 2 ^ 32 - 2 ^ 31)%Z.

(** [uintptr] arithmetic is modulo [2^64]. *)
Definition uintptr_add (a b : Z) : Z := ((a + b) mod 2 ^ 64)%Z.

(** ** Errors of [os.Stat] *)

Inductive os_error := ErrNotExist | ErrOther.

(** [os.IsNotExist(err)]; [None] is the [nil] error. *)
Definition os_IsNotExist (err : option os_error) : bool :=
  match err with
  | Some ErrNotExist => true
  | _ => false
  end.

(** ** Observable actions, in program order *)

Inductive Event :=
| E_Stat (path : string)
| E_CString (s : string)
| E_free (s : string)
| E_NewJieba (d h u i s : string)
| E_FreeJieba (j : C_Jieba)
| E_SetFinalizer (x : loc) (set : bool)
| E_Cut (j : C_Jieba) (s : string) (hmm : Z)
| E_CutAll (j : C_Jieba) (s : string)
| E_CutForSearch (j : C_Jieba) (s : string) (hmm : Z)
| E_Tag (j : C_Jieba) (s : string)
| E_AddWord (j : C_Jieba) (s : string)
| E_AddWordEx (j : C_Jieba) (s : string) (freq : Z) (tag : string)
| E_RemoveWord (j : C_Jieba) (s : string)
| E_Tokenize (j : C_Jieba) (s : string) (mode : Z) (hmm : Z)
| E_Extract (j : C_Jieba) (s : string) (topk : Z)
| E_ExtractWithWeight (j : C_Jieba) (s : string) (topk : Z)
| E_FreeWords
| E_FreeWordWeights
| E_free_array
| E_RLock
| E_RUnlock
| E_LoadFreed (x : loc) (v : Z)
| E_CasFreed (x : loc) (swapped : bool).

(** An event is a call into the native engine when it is one of the
    [C.*] entry points of jieba.h (not [C.CString] or [C.free]). *)
Definition is_native_call (e : Event) : bool :=
  match e with
  | E_NewJieba _ _ _ _ _ | E_FreeJieba _ | E_Cut _ _ _ | E_CutAll _ _
  | E_CutForSearch _ _ _ | E_Tag _ _ | E_AddWord _ _ | E_AddWordEx _ _ _ _
  | E_RemoveWord _ _ | E_Tokenize _ _ _ _ | E_Extract _ _ _
  | E_ExtractWithWeight _ _ _ | E_FreeWords | E_FreeWordWeights => true
  | _ => false
  end.

Definition is_CString (e : Event) : bool :=
  match e with E_CString _ => true | _ => false end.

Definition is_NewJieba (e : Event) : bool :=
  match e with E_NewJieba _ _ _ _ _ => true | _ => false end.

Definition is_FreeJieba (e : Event) : bool :=
  match e with E_FreeJieba _ => true | _ => false end.

(** Actions that only construction performs: dictionary stats, and the
    native initializer. *)
Definition is_construction (e : Event) : bool :=
  match e with
  | E_Stat _ | E_NewJieba _ _ _ _ _ => true
  | _ => false
  end.

Definition count_ev (p : Event -> bool) (t : list Event) : nat :=
  length (List.filter p t).

(** ** Process state *)

Record World := mkWorld
  { heap : gmap loc Jieba;
    finalizers : gset loc;
    sharedInstance : ptr;
    sharedInstanceOnce : bool;
    sharedInstanceLock : nat;
    trace : list Event }.

Definition init_world : World :=
  {| heap := ∅; finalizers := ∅; sharedInstance := None;
     sharedInstanceOnce := false; sharedInstanceLock := 0; trace := [] |}.

Definition set_heap (h : gmap loc Jieba) (w : World) : World :=
  {| heap := h; finalizers := finalizers w; sharedInstance := sharedInstance w;
     sharedInstanceOnce := sharedInstanceOnce w;
     sharedInstanceLock := sharedInstanceLock w; trace := trace w |}.

Definition set_finalizers (f : gset loc) (w : World) : World :=
  {| heap := heap w; finalizers := f; sharedInstance := sharedInstance w;
     sharedInstanceOnce := sharedInstanceOnce w;
     sharedInstanceLock := sharedInstanceLock w; trace := trace w |}.

Definition set_sharedInstance (p : ptr) (w : World) : World :=
  {| heap := heap w; finalizers := finalizers w; sharedInstance := p;
     sharedInstanceOnce := sharedInstanceOnce w;
     sharedInstanceLock := sharedInstanceLock w; trace := trace w |}.

Definition set_once (b : bool) (w : World) : World :=
  {| heap := heap w; finalizers := finalizers w; sharedInstance := sharedInstance w;
     sharedInstanceOnce := b;
     sharedInstanceLock := sharedInstanceLock w; trace := trace w |}.

Definition set_lock (n : nat) (w : World) : World :=
  {| heap := heap w; finalizers := finalizers w; sharedInstance := sharedInstance w;
     sharedInstanceOnce := sharedInstanceOnce w;
     sharedInstanceLock := n; trace := trace w |}.

Definition set_trace (t : list Event) (w : World) : World :=
  {| heap := heap w; finalizers := finalizers w; sharedInstance := sharedInstance w;
     sharedInstanceOnce := sharedInstanceOnce w;
     sharedInstanceLock := sharedInstanceLock w; trace := t |}.

(** ** Results, panics and the state monad of the bridge *)

(** Ways a call ends without a value: [panic(msg)]; the runtime's
    nil-pointer panic; a fault on a read of native memory; no end at all. *)
Inductive panic :=
| Panic_msg (msg : string)
| Panic_nil_deref
| Fatal_fault
| No_return.

Inductive res (A : Type) :=
| Ret (a : A)
| Panic (p : panic).
Arguments Ret {A} a.
Arguments Panic {A} p.

Definition M (A : Type) := World -> res A * World.

Definition ret {A} (a : A) : M A := fun w => (Ret a, w).

Definition bind {A B} (m : M A) (k : A -> M B) : M B := fun w =>
  match m w with
  | (Ret a, w1) => k a w1
  | (Panic p, w1) => (Panic p, w1)
  end.

Definition throw {A} (p : panic) : M A := fun w => (Panic p, w).

(** A call of a function that touches no state of the bridge. *)
Definition pure_call {A} (r : res A) : M A := fun w => (r, w).

(** Field writes of a [Jieba] object and of the package variables. *)
Definition modify (f : World -> World) : M unit := fun w => (Ret tt, f w).

Declare Scope go_scope.
Delimit Scope go_scope with go.
Notation "x <- c1 ;; c2" := (bind c1 (fun x => c2))
  (at level 100, c1 at next level, right associativity) : go_scope.
Notation "c1 ;; c2" := (bind c1 (fun _ => c2))
  (at level 100, right associativity) : go_scope.
Open Scope go_scope.

(** [defer d] followed by [body]: [d] runs when [body] leaves, by return
    or by panic; a panic of [d] replaces the pending outcome. *)
Definition with_defer {A} (d : M unit) (body : M A) : M A := fun w =>
  let '(r, w1) := body w in
  match d w1 with
  | (Ret _, w2) => (r, w2)
  | (Panic p, w2) => (Panic p, w2)
  end.

Definition emit (e : Event) : M unit := fun w =>
  (Ret tt, set_trace (trace w ++ [e]) w).

(** The events a computation adds to the trace of [w]. *)
Definition events_of {A} (m : M A) (w : World) : list Event :=
  drop (length (trace w)) (trace (snd (m w))).

(** Dereference of a [*Jieba]: [nil] faults. *)
Definition deref (x : ptr) : M (loc * Jieba) := fun w =>
  match x with
  | None => (Panic Panic_nil_deref, w)
  | Some l =>
      match heap w !! l with
      | Some o => (Ret (l, o), w)
      | None => (Panic Panic_nil_deref, w)
      end
  end.

(** [atomic.LoadInt32(&x.freed)] *)
Definition LoadInt32_freed (x : ptr) : M Z :=
  lo <- deref x ;;
  emit (E_LoadFreed (fst lo) (freed (snd lo))) ;;
  ret (freed (snd lo)).

(** [atomic.CompareAndSwapInt32(&x.freed, old, new)] *)
Definition CompareAndSwapInt32_freed (x : ptr) (old new : Z) : M bool :=
  lo <- deref x ;;
  if Z.eqb (freed (snd lo)) old then
    modify (fun w => set_heap (<[fst lo := mkJieba (jieba (snd lo)) new]> (heap w)) w) ;;
    emit (E_CasFreed (fst lo) true) ;;
    ret true
  else
    emit (E_CasFreed (fst lo) false) ;;
    ret false.

(** Read of the field [x.jieba]. *)
Definition load_jieba (x : ptr) : M C_Jieba :=
  lo <- deref x ;; ret (jieba (snd lo)).

(** Assignment [x.jieba = j]. *)
Definition store_jieba (x : ptr) (j : C_Jieba) : M unit :=
  lo <- deref x ;;
  modify (fun w => set_heap (<[fst lo := mkJieba j (freed (snd lo))]> (heap w)) w).

(** [runtime.SetFinalizer(x, f)]: [set] when [f] is the method [Free],
    and not [set] when [f] is [nil]. *)
Definition SetFinalizer (x : ptr) (set : bool) : M unit :=
  lo <- deref x ;;
  modify (fun w => set_finalizers
                     (if set then {[fst lo]} ∪ finalizers w
                      else finalizers w ∖ {[fst lo]}) w) ;;
  emit (E_SetFinalizer (fst lo) set).

(** Allocation [&Jieba{j, f}] of a new heap object. *)
Definition new_Jieba (j : C_Jieba) (f : Z) : M ptr := fun w =>
  let l := fresh (dom (heap w)) in
  (Ret (Some l), set_heap (<[l := mkJieba j f]> (heap w)) w).

(** [C.CString(s)]: a C copy of [s]; [C.free] releases it. *)
Definition CString (s : string) : M string := emit (E_CString s) ;; ret s.
Definition C_free (cstr : string) : M unit := emit (E_free cstr).

(** [sharedInstanceLock.RLock()] and [RUnlock()]; no code path takes the
    write lock, so a reader never waits. *)
Definition RLock : M unit :=
  modify (fun w => set_lock (S (sharedInstanceLock w)) w) ;; emit E_RLock.
Definition RUnlock : M unit :=
  modify (fun w => set_lock (pred (sharedInstanceLock w)) w) ;; emit E_RUnlock.

(** [sharedInstanceOnce.Do(f)]: [f] runs only if no earlier [Do] ran its
    function; the guard is marked when [f] leaves, by return or by panic. *)
Definition Once_Do (f : M unit) : M unit := fun w =>
  if sharedInstanceOnce w then (Ret tt, w)
  else with_defer (modify (set_once true)) f w.

(** Read and write of the package variable [sharedInstance]. *)
Definition get_sharedInstance : M ptr := fun w => (Ret (sharedInstance w), w).
Definition put_sharedInstance (x : ptr) : M unit := modify (set_sharedInstance x).

(** ** What the bridge does not define

    The native engine behind jieba.h, the file system, and the helpers
    [getDictPaths], [cstrings] and [convertWords] (declared in other files
    of the package) are taken as parameters.  A native entry point may
    depend on everything that happened before the call (the engine keeps
    its own state): it receives the trace so far. *)
Class Env := mkEnv
  { (** values of type [**C.char] and [*C.Word] *)
    cwords : Type;
    cwordarr : Type;
    (** the error of [os.Stat(path)] *)
    os_Stat : string -> option os_error;
    getDictPaths : list string -> res DictPaths;
    cstrings : cwords -> list string;
    convertWords : string -> cwordarr -> list Word;
    (** [unsafe.Sizeof(struct CWordWeight)] *)
    eltSize : Z;
    C_NewJieba : list Event -> string -> string -> string -> string -> string -> C_Jieba;
    C_Cut : list Event -> C_Jieba -> string -> Z -> cwords;
    C_CutAll : list Event -> C_Jieba -> string -> cwords;
    C_CutForSearch : list Event -> C_Jieba -> string -> Z -> cwords;
    C_Tag : list Event -> C_Jieba -> string -> cwords;
    C_Tokenize : list Event -> C_Jieba -> string -> Z -> Z -> cwordarr;
    C_Extract : list Event -> C_Jieba -> string -> Z -> cwords;
    (** the returned [CWordWeight*] and the native memory it points into,
        as records by address *)
    C_ExtractWithWeight : list Event -> C_Jieba -> string -> Z -> Z * gmap Z CWordWeight }.

(** Outcome of scanning native memory: the loop of [cwordweights] returns,
    reads an address that holds no record, or is cut off. *)
Inductive scan (A : Type) :=
| Scanned (a : A)
| Fault
| OutOfFuel.
Arguments Scanned {A} a.
Arguments Fault {A}.
Arguments OutOfFuel {A}.

Section Bridge.
Context `{Env}.

(** A native call: the engine sees the history, the call is recorded. *)
Definition native {A} (f : list Event -> A) (e : Event) : M A := fun w =>
  (Ret (f (trace w)), set_trace (trace w ++ [e]) w).

(** The loop [for _, path := range dictpaths] of [NewJieba]. *)
Fixpoint check_exist (dictpaths : list string) : M unit :=
  match dictpaths with
  | [] => ret tt
  | path :: rest =>
      emit (E_Stat path) ;;
      if os_IsNotExist (os_Stat path) then
        throw (Panic_msg ("Dictionary file does not exist: " ++ path))
      else check_exist rest
  end.

(** What that loop does, as data: the paths it stats, in order, and the
    path it panics on, if any. *)
Fixpoint stat_prefix (dictpaths : list string) : list string * option string :=
  match dictpaths with
  | [] => ([], None)
  | path :: rest =>
      if os_IsNotExist (os_Stat path) then ([path], Some path)
      else (path :: fst (stat_prefix rest), snd (stat_prefix rest))
  end.

Definition NewJieba (paths : list string) : M ptr :=
  dictpaths <- pure_call (getDictPaths paths) ;;
  check_exist (dp_list dictpaths) ;;
  dpath <- CString (dp0 dictpaths) ;;
  hpath <- CString (dp1 dictpaths) ;;
  upath <- CString (dp2 dictpaths) ;;
  ipath <- CString (dp3 dictpaths) ;;
  spath <- CString (dp4 dictpaths) ;;
  with_defer (C_free dpath) (
  with_defer (C_free hpath) (
  with_defer (C_free upath) (
  with_defer (C_free ipath) (
  with_defer (C_free spath) (
    j <- native (fun t => C_NewJieba t dpath hpath upath ipath spath)
                (E_NewJieba dpath hpath upath ipath spath) ;;
    x <- new_Jieba j 0 ;;
    SetFinalizer x true ;;
    ret x))))).

(** The function literal passed to [sharedInstanceOnce.Do]. *)
Definition construct_shared (paths : list string) : M unit :=
  x <- NewJieba paths ;;
  put_sharedInstance x ;;
  si <- get_sharedInstance ;;
  SetFinalizer si false.

(** The statements of [GetSharedInstance] after the [Do]. *)
Definition shared_check : M ptr :=
  RLock ;;
  with_defer RUnlock (
    si <- get_sharedInstance ;;
    v <- LoadInt32_freed si ;;
    if negb (Z.eqb v 0) then
      throw (Panic_msg "Shared Jieba instance has been freed")
    else
      si' <- get_sharedInstance ;;
      ret si').

Definition GetSharedInstance (paths : list string) : M ptr :=
  Once_Do (construct_shared paths) ;;
  shared_check.

(** The trace of a successful [NewJieba] after the stats. *)
Definition construct_events (d : DictPaths) (l : loc) : list Event :=
  [E_CString (dp0 d); E_CString (dp1 d); E_CString (dp2 d); E_CString (dp3 d);
   E_CString (dp4 d); E_NewJieba (dp0 d) (dp1 d) (dp2 d) (dp3 d) (dp4 d);
   E_SetFinalizer l true;
   E_free (dp4 d); E_free (dp3 d); E_free (dp2 d); E_free (dp1 d); E_free (dp0 d)].

Definition Free (x : ptr) : M unit :=
  swapped <- CompareAndSwapInt32_freed x 0 1 ;;
  if swapped : bool then
    j <- load_jieba x ;;
    emit (E_FreeJieba j) ;;
    store_jieba x C_nil ;;
    SetFinalizer x false
  else ret tt.

Definition checkFreed (x : ptr) : M unit :=
  v <- LoadInt32_freed x ;;
  if negb (Z.eqb v 0) then
    throw (Panic_msg "Jieba instance has been freed")
  else ret tt.

Definition c_int_hmm (hmm : bool) : Z := if hmm then 1%Z else 0%Z.

Definition Cut (x : ptr) (s : string) (hmm : bool) : M (list string) :=
  checkFreed x ;;
  cstr <- CString s ;;
  with_defer (C_free cstr) (
    j <- load_jieba x ;;
    words <- native (fun t => C_Cut t j cstr (C_int (c_int_hmm hmm)))
                    (E_Cut j cstr (C_int (c_int_hmm hmm))) ;;
    with_defer (emit E_FreeWords) (
      ret (cstrings words))).

Definition CutAll (x : ptr) (s : string) : M (list string) :=
  checkFreed x ;;
  cstr <- CString s ;;
  with_defer (C_free cstr) (
    j <- load_jieba x ;;
    words <- native (fun t => C_CutAll t j cstr) (E_CutAll j cstr) ;;
    with_defer (emit E_FreeWords) (
      ret (cstrings words))).

Definition CutForSearch (x : ptr) (s : string) (hmm : bool) : M (list string) :=
  checkFreed x ;;
  cstr <- CString s ;;
  with_defer (C_free cstr) (
    j <- load_jieba x ;;
    words <- native (fun t => C_CutForSearch t j cstr (C_int (c_int_hmm hmm)))
                    (E_CutForSearch j cstr (C_int (c_int_hmm hmm))) ;;
    with_defer (emit E_FreeWords) (
      ret (cstrings words))).

Definition Tag (x : ptr) (s : string) : M (list string) :=
  checkFreed x ;;
  cstr <- CString s ;;
  with_defer (C_free cstr) (
    j <- load_jieba x ;;
    words <- native (fun t => C_Tag t j cstr) (E_Tag j cstr) ;;
    with_defer (emit E_FreeWords) (
      ret (cstrings words))).

Definition AddWord (x : ptr) (s : string) : M unit :=
  cstr <- CString s ;;
  with_defer (C_free cstr) (
    j <- load_jieba x ;;
    emit (E_AddWord j cstr)).

Definition AddWordEx (x : ptr) (s : string) (freq : Z) (tag : string) : M unit :=
  cstr <- CString s ;;
  ctag <- CString tag ;;
  with_defer (C_free ctag) (
  with_defer (C_free cstr) (
    j <- load_jieba x ;;
    emit (E_AddWordEx j cstr (C_int freq) ctag))).

Definition RemoveWord (x : ptr) (s : string) : M unit :=
  cstr <- CString s ;;
  with_defer (C_free cstr) (
    j <- load_jieba x ;;
    emit (E_RemoveWord j cstr)).

Definition Tokenize (x : ptr) (s : string) (mode : TokenizeMode) (hmm : bool)
  : M (list Word) :=
  cstr <- CString s ;;
  with_defer (C_free cstr) (
    j <- load_jieba x ;;
    words <- native (fun t => C_Tokenize t j cstr (C_int mode) (C_int (c_int_hmm hmm)))
                    (E_Tokenize j cstr (C_int mode) (C_int (c_int_hmm hmm))) ;;
    with_defer (emit E_free_array) (
      ret (convertWords s words))).

Definition Extract (x : ptr) (s : string) (topk : Z) : M (list string) :=
  cstr <- CString s ;;
  with_defer (C_free cstr) (
    j <- load_jieba x ;;
    words <- native (fun t => C_Extract t j cstr (C_int topk))
                    (E_Extract j cstr (C_int topk)) ;;
    let res := cstrings words in
    with_defer (emit E_FreeWords) (
      ret res)).

(** The loop of [cwordweights]: [s] is the slice built so far, [x] the
    address of the current record. *)
Fixpoint cwordweights_loop (fuel : nat) (mem : gmap Z CWordWeight) (x : Z)
    (s : list WordWeight) : scan (list WordWeight) :=
  match fuel with
  | O => OutOfFuel
  | S fuel' =>
      match mem !! x with
      | None => Fault
      | Some r =>
          match cw_word r with
          | None => Scanned s
          | Some w =>
              let ww := mkWordWeight w (cw_weight r) in
              cwordweights_loop fuel' mem (uintptr_add x eltSize) (s ++ [ww])
          end
      end
  end.

(** [cwordweights] on native memory [mem].  The loop reads one record per
    iteration and its control depends on the address alone: once it has
    made more iterations than [mem] has records it has read some address
    twice (the address wrapped around) and never ends.  [OutOfFuel] is
    that case; [cwordweights_fuel] shows that no larger bound changes the
    outcome. *)
Definition cwordweights (mem : gmap Z CWordWeight) (x : Z) : scan (list WordWeight) :=
  cwordweights_loop (S (size mem)) mem x [].

Definition scan_result {A} (r : scan A) : M A :=
  match r with
  | Scanned a => ret a
  | Fault => throw Fatal_fault
  | OutOfFuel => throw No_return
  end.

Definition ExtractWithWeight (x : ptr) (s : string) (topk : Z) : M (list WordWeight) :=
  cstr <- CString s ;;
  with_defer (C_free cstr) (
    j <- load_jieba x ;;
    words <- native (fun t => C_ExtractWithWeight t j cstr (C_int topk))
                    (E_ExtractWithWeight j cstr (C_int topk)) ;;
    res <- scan_result (cwordweights (snd words) (fst words)) ;;
    with_defer (emit E_FreeWordWeights) (
      ret res)).

(** The address the loop reads in its [n]-th iteration, and what makes
    the loop go on at an address: a record with a non-null word. *)
Fixpoint nth_addr (x : Z) (n : nat) : Z :=
  match n with
  | O => x
  | S n' => nth_addr (uintptr_add x eltSize) n'
  end.

Definition goes_on (mem : gmap Z CWordWeight) (a : Z) : Prop :=
  ∃ r w, mem !! a = Some r ∧ cw_word r = Some w.

(** The native array [rs] lies at address [x] of [mem], inside the address
    space. *)
Definition holds_array (mem : gmap Z CWordWeight) (x : Z) (rs : list CWordWeight)
  : Prop :=
  (0 ≤ x)%Z ∧ (x + eltSize * Z.of_nat (length rs) ≤ 2 ^ 64)%Z ∧
  ∀ i r, rs !! i = Some r → mem !! (x + eltSize * Z.of_nat i)%Z = Some r.

End Bridge.

(** A native record with a non-null word, and the Go pair made from it. *)
Definition c_record (p : string * float64) : CWordWeight :=
  mkCWordWeight (Some (fst p)) (snd p).

Definition go_pair (p : string * float64) : WordWeight :=
  mkWordWeight (fst p) (snd p).

(** ** What calls leave alone

    A handle whose flag is set keeps its flag, and keeps a cleared native
    reference; [steady] adds that the shared instance and its guard are
    untouched. *)
Definition frozen (w w' : World) : Prop :=
  ∀ l o, heap w !! l = Some o → freed o ≠ 0%Z →
    ∃ o', heap w' !! l = Some o' ∧ freed o' = freed o ∧
          (jieba o = C_nil → jieba o' = C_nil).

Definition steady (w w' : World) : Prop :=
  frozen w w' ∧ sharedInstance w' = sharedInstance w ∧
  sharedInstanceOnce w' = sharedInstanceOnce w.

Definition preserves {A} (m : M A) : Prop := ∀ w, steady w (snd (m w)).

(** ** Callers

    A caller is a sequence of calls of the public functions; a panic of one
    call is recovered and the next call runs in the state the panic left. *)
Inductive Op :=
| OpNewJieba (paths : list string)
| OpGetSharedInstance (paths : list string)
| OpFree (x : ptr)
| OpCut (x : ptr) (s : string) (hmm : bool)
| OpCutAll (x : ptr) (s : string)
| OpCutForSearch (x : ptr) (s : string) (hmm : bool)
| OpTag (x : ptr) (s : string)
| OpAddWord (x : ptr) (s : string)
| OpAddWordEx (x : ptr) (s : string) (freq : Z) (tag : string)
| OpRemoveWord (x : ptr) (s : string)
| OpTokenize (x : ptr) (s : string) (mode : TokenizeMode) (hmm : bool)
| OpExtract (x : ptr) (s : string) (topk : Z)
| OpExtractWithWeight (x : ptr) (s : string) (topk : Z).

Inductive Val :=
| V_unit
| V_ptr (p : ptr)
| V_strings (l : list string)
| V_words (l : list Word)
| V_weights (l : list WordWeight).

Definition is_OpGetSharedInstance (o : Op) : bool :=
  match o with OpGetSharedInstance _ => true | _ => false end.

(** One entry of a caller's log: the call, how it ended, what it did. *)
Record Entry := mkEntry { e_op : Op; e_res : res Val; e_events : list Event }.

Section Callers.
Context `{Env}.

Definition exec (o : Op) : M Val :=
  match o with
  | OpNewJieba paths => x <- NewJieba paths ;; ret (V_ptr x)
  | OpGetSharedInstance paths => x <- GetSharedInstance paths ;; ret (V_ptr x)
  | OpFree x => Free x ;; ret V_unit
  | OpCut x s hmm => l <- Cut x s hmm ;; ret (V_strings l)
  | OpCutAll x s => l <- CutAll x s ;; ret (V_strings l)
  | OpCutForSearch x s hmm => l <- CutForSearch x s hmm ;; ret (V_strings l)
  | OpTag x s => l <- Tag x s ;; ret (V_strings l)
  | OpAddWord x s => AddWord x s ;; ret V_unit
  | OpAddWordEx x s freq tag => AddWordEx x s freq tag ;; ret V_unit
  | OpRemoveWord x s => RemoveWord x s ;; ret V_unit
  | OpTokenize x s mode hmm => l <- Tokenize x s mode hmm ;; ret (V_words l)
  | OpExtract x s topk => l <- Extract x s topk ;; ret (V_strings l)
  | OpExtractWithWeight x s topk => l <- ExtractWithWeight x s topk ;; ret (V_weights l)
  end.

Fixpoint run (ops : list Op) (w : World) : list Entry * World :=
  match ops with
  | [] => ([], w)
  | o :: rest =>
      let rw := exec o w in
      let lw := run rest (snd rw) in
      (mkEntry o (fst rw) (events_of (exec o) w) :: fst lw, snd lw)
  end.

(** ** Concurrent callers of [Free]

    Several goroutines run [x.Free()] on the same handle.  Each is at one
    of the atomic actions of the method body; a schedule names, step by
    step, the goroutine that moves. *)
Inductive FreePC :=
| F_cas
| F_load
| F_call (j : C_Jieba)
| F_store
| F_unset
| F_done
| F_panicked (p : panic).

Definition after {A} (r : res A * World) (k : A -> FreePC) : FreePC * World :=
  match r with
  | (Ret a, w) => (k a, w)
  | (Panic p, w) => (F_panicked p, w)
  end.

Definition Free_step (x : ptr) (pc : FreePC) (w : World) : FreePC * World :=
  match pc with
  | F_cas => after (CompareAndSwapInt32_freed x 0 1 w)
                   (fun swapped : bool => if swapped then F_load else F_done)
  | F_load => after (load_jieba x w) F_call
  | F_call j => after (emit (E_FreeJieba j) w) (fun _ => F_store)
  | F_store => after (store_jieba x C_nil w) (fun _ => F_unset)
  | F_unset => after (SetFinalizer x false w) (fun _ => F_done)
  | F_done => (F_done, w)
  | F_panicked p => (F_panicked p, w)
  end.

Definition sys_step (x : ptr) (i : nat) (s : list FreePC * World)
  : list FreePC * World :=
  match fst s !! i with
  | Some pc =>
      let pw := Free_step x pc (snd s) in
      (<[i := fst pw]> (fst s), snd pw)
  | None => s
  end.

Definition run_sched (x : ptr) (sched : list nat) (s : list FreePC * World)
  : list FreePC * World :=
  fold_left (fun s i => sys_step x i s) sched s.







(** The calls of [GetSharedInstance] in a log, and the native
    constructions a log shows. *)
Definition shared_calls (log : list Entry) : list Entry :=
  List.filter (fun e => is_OpGetSharedInstance (e_op e)) log.

Definition native_constructions (log : list Entry) : nat :=
  count_ev is_NewJieba (flat_map e_events log).

End Callers.

(** ** A concrete environment

    Dictionary paths resolve to the caller's entry where it gives a
    non-empty one and to a default otherwise; one path, [missing.utf8], does
    not exist; the engine hands out references by the length of the trace
    and answers every query with fixed arrays. *)
Module Demo.

Definition pick (paths : list string) (i : nat) (dflt : string) : string :=
  match paths !! i with
  | Some p => if String.eqb p "" then dflt else p
  | None => dflt
  end.

Definition resolve (paths : list string) : res DictPaths :=
  Ret (mkDictPaths (pick paths 0 "dict/jieba.dict.utf8")
                   (pick paths 1 "dict/hmm_model.utf8")
                   (pick paths 2 "dict/user.dict.utf8")
                   (pick paths 3 "dict/idf.utf8")
                   (pick paths 4 "dict/stop_words.utf8")).

Definition stat (path : string) : option os_error :=
  if String.eqb path "missing.utf8" then Some ErrNotExist else None.

Definition weights : gmap Z CWordWeight :=
  {[ 4096%Z := mkCWordWeight (Some "a") 3%Z;
     4112%Z := mkCWordWeight (Some "b") 2%Z;
     4128%Z := mkCWordWeight None 0%Z;
     4144%Z := mkCWordWeight (Some "c") 1%Z ]}.

Definition no_weights : gmap Z CWordWeight :=
  {[ 4096%Z := mkCWordWeight None 0%Z;
     4112%Z := mkCWordWeight (Some "b") 2%Z ]}.

Definition env : Env :=
  {| cwords := list string;
     cwordarr := list Word;
     os_Stat := stat;
     getDictPaths := resolve;
     cstrings := fun l => l;
     convertWords := fun _ l => l;
     eltSize := 16%Z;
     C_NewJieba := fun t _ _ _ _ _ => (4096 + Z.of_nat (length t))%Z;
     C_Cut := fun _ _ s _ => [s];
     C_CutAll := fun _ _ s => [s];
     C_CutForSearch := fun _ _ s _ => [s];
     C_Tag := fun _ _ s => [s; "x"];
     C_Tokenize := fun _ _ s _ _ => [mkWord s 0%Z (Z.of_nat (String.length s))];
     C_Extract := fun _ _ s _ => [s];
     C_ExtractWithWeight := fun _ _ _ _ => (4096%Z, weights) |}.

(** A handle that was constructed and then freed. *)
Definition freed_world : World :=
  {| heap := {[ 1%positive := mkJieba 0%Z 1%Z ]}; finalizers := ∅;
     sharedInstance := None; sharedInstanceOnce := false;
     sharedInstanceLock := 0; trace := [] |}.

(** A live handle. *)
Definition live_world : World :=
  {| heap := {[ 1%positive := mkJieba 4096%Z 0%Z ]}; finalizers := {[ 1%positive ]};
     sharedInstance := None; sharedInstanceOnce := false;
     sharedInstanceLock := 0; trace := [] |}.

End Demo.

(** ** Resources, frames and invariants of the bridge *)

Definition is_free (e : Event) : bool :=
  match e with E_free _ => true | _ => false end.








Definition is_RLock (e : Event) : bool :=
  match e with E_RLock => true | _ => false end.

Definition is_RUnlock (e : Event) : bool :=
  match e with E_RUnlock => true | _ => false end.

(** Acquisitions less releases in a stretch of the trace. *)
Definition net (acq rel : Event -> bool) (d : list Event) : Z :=
  (Z.of_nat (count_ev acq d) - Z.of_nat (count_ev rel d))%Z.

(** A computation only appends to the trace, and what it appends has net
    [n], however it ends. *)
Definition flows (acq rel : Event -> bool) (n : Z) {A} (m : M A) : Prop :=
  ∀ w, ∃ d, trace (snd (m w)) = trace w ++ d ∧ net acq rel d = n.

(** A computation that never panics. *)
Definition returns {A} (m : M A) : Prop := ∀ w, ∃ a, fst (m w) = Ret a.

(** Nothing but the trace differs. *)
Definition quiet (w w' : World) : Prop := w' = set_trace (trace w') w.

Definition keeps_quiet {A} (m : M A) : Prop := ∀ w, quiet w (snd (m w)).

(** The receiver of a method call; the two package functions have none. *)
Definition receiver (o : Op) : option ptr :=
  match o with
  | OpNewJieba _ | OpGetSharedInstance _ => None
  | OpFree x | OpCut x _ _ | OpCutAll x _ | OpCutForSearch x _ _ | OpTag x _
  | OpAddWord x _ | OpAddWordEx x _ _ _ | OpRemoveWord x _
  | OpTokenize x _ _ _ | OpExtract x _ _ | OpExtractWithWeight x _ _ => Some x
  end.

(** The segmentation, extraction and dictionary methods. *)
Definition is_engine_op (o : Op) : bool :=
  match o with
  | OpNewJieba _ | OpGetSharedInstance _ | OpFree _ => false
  | _ => true
  end.

(** What holds of every state the public functions can produce: a flag is
    0 or 1 and a set flag comes with a nil native reference; only live
    handles have a finalizer; the shared instance is a handle without
    finalizer. *)
Definition wf_state (w : World) : Prop :=
  (∀ l o, heap w !! l = Some o →
     freed o = 0%Z ∨ (freed o = 1%Z ∧ jieba o = C_nil)) ∧
  (∀ l, l ∈ finalizers w → ∃ o, heap w !! l = Some o ∧ freed o = 0%Z) ∧
  (∀ l, sharedInstance w = Some l →
     is_Some (heap w !! l) ∧ (l ∉ finalizers w) ∧ sharedInstanceOnce w = true).

(** Goroutines of a [Free] race that won the compare-and-swap and have not
    returned. *)
Definition active (pc : FreePC) : nat :=
  match pc with
  | F_load | F_call _ | F_store | F_unset => 1
  | _ => 0
  end.

Definition winners (pcs : list FreePC) : nat := sum_list_with active pcs.





(** A file system in which every [os.Stat] fails, but never with
    "does not exist" (no permission, say), under the engine of [Demo]. *)
Module Denied.

Definition env : Env :=
  {| cwords := list string;
     cwordarr := list Word;
     os_Stat := fun _ => Some ErrOther;
     getDictPaths := Demo.resolve;
     cstrings := fun l => l;
     convertWords := fun _ l => l;
     eltSize := 16%Z;
     C_NewJieba := fun t _ _ _ _ _ => (4096 + Z.of_nat (length t))%Z;
     C_Cut := fun _ _ s _ => [s];
     C_CutAll := fun _ _ s => [s];
     C_CutForSearch := fun _ _ s _ => [s];
     C_Tag := fun _ _ s => [s; "x"];
     C_Tokenize := fun _ _ s _ _ => [mkWord s 0%Z (Z.of_nat (String.length s))];
     C_Extract := fun _ _ s _ => [s];
     C_ExtractWithWeight := fun _ _ _ _ => (4096%Z, Demo.weights) |}.

End Denied.

(** * Proofs *)

Ltac wsimpl :=
  cbn [heap finalizers sharedInstance sharedInstanceOnce sharedInstanceLock trace
       set_heap set_finalizers set_sharedInstance set_once set_lock set_trace
       fst snd jieba freed] in *.

Ltac munfold :=
  unfold CString, C_free, RLock, RUnlock, LoadInt32_freed, CompareAndSwapInt32_freed,
    load_jieba, store_jieba, SetFinalizer, new_Jieba, native, scan_result,
    pure_call, modify, get_sharedInstance, put_sharedInstance,
    with_defer, emit, throw, bind, ret, deref in *.

Section Properties.
Context `{Env}.

Lemma world_eta w :
  {| heap := heap w; finalizers := finalizers w; sharedInstance := sharedInstance w;
     sharedInstanceOnce := sharedInstanceOnce w;
     sharedInstanceLock := sharedInstanceLock w; trace := trace w |} = w.
Proof. by destruct w. Qed.

Lemma events_of_eq {A} (m : M A) w r w' d :
  m w = (r, w') → trace w' = trace w ++ d → events_of m w = d.
Proof.
  intros Hm Ht. unfold events_of. rewrite Hm. cbn [snd]. rewrite Ht.
  by rewrite drop_app_length.
Qed.

Lemma AddWord_eq l o s w :
  heap w !! l = Some o →
  AddWord (Some l) s w =
    (Ret tt, set_trace (trace w ++ [E_CString s; E_AddWord (jieba o) s; E_free s]) w).
Proof.
  intros Hl. unfold AddWord. munfold. wsimpl. rewrite Hl. wsimpl.
  unfold set_trace; wsimpl. by rewrite <- !app_assoc.
Qed.

Lemma check_exist_eq ps w :
  check_exist ps w =
    (match snd (stat_prefix ps) with
     | Some path => Panic (Panic_msg ("Dictionary file does not exist: " ++ path))
     | None => Ret tt
     end,
     set_trace (trace w ++ map E_Stat (fst (stat_prefix ps))) w).
Proof.
  revert w. induction ps as [|path rest IH]; intros w.
  - cbn. unfold ret, set_trace. rewrite app_nil_r. by rewrite world_eta.
  - cbn [check_exist stat_prefix]. munfold.
    destruct (os_IsNotExist (os_Stat path)); wsimpl.
    + done.
    + rewrite IH. wsimpl. unfold set_trace; wsimpl.
      by rewrite <- app_assoc.
Qed.

Lemma stat_prefix_all ps :
  snd (stat_prefix ps) = None →
  fst (stat_prefix ps) = ps ∧ ∀ p, p ∈ ps → os_IsNotExist (os_Stat p) = false.
Proof.
  induction ps as [|path rest IH]; cbn [stat_prefix].
  - intros _. split; [done|]. intros p Hp. by apply elem_of_nil in Hp.
  - destruct (os_IsNotExist (os_Stat path)) eqn:E; cbn [fst snd]; [done|].
    intros Hn. destruct (IH Hn) as [-> Hall]. split; [done|].
    intros p [->|Hp]%elem_of_cons; auto.
Qed.

Lemma stat_prefix_missing ps path :
  snd (stat_prefix ps) = Some path →
  os_IsNotExist (os_Stat path) = true ∧
  ∃ pre post, ps = pre ++ path :: post ∧ fst (stat_prefix ps) = pre ++ [path] ∧
    ∀ p, p ∈ pre → os_IsNotExist (os_Stat p) = false.
Proof.
  induction ps as [|q rest IH]; cbn [stat_prefix]; [done|].
  destruct (os_IsNotExist (os_Stat q)) eqn:E; cbn [fst snd].
  - intros [= ->]. split; [done|]. exists [], rest. split_and!; [done..|].
    intros p Hp. by apply elem_of_nil in Hp.
  - intros Hs. destruct (IH Hs) as (Hm & pre & post & -> & Hf & Hpre).
    split; [done|]. exists (q :: pre), post. rewrite Hf. split_and!; [done..|].
    intros p [->|Hp]%elem_of_cons; auto.
Qed.


Lemma NewJieba_eq paths w :
  NewJieba paths w =
    match getDictPaths paths with
    | Panic p => (Panic p, w)
    | Ret d =>
        match snd (stat_prefix (dp_list d)) with
        | Some path =>
            (Panic (Panic_msg ("Dictionary file does not exist: " ++ path)),
             set_trace (trace w ++ map E_Stat (fst (stat_prefix (dp_list d)))) w)
        | None =>
            let l := fresh (dom (heap w)) in
            let t := trace w ++ map E_Stat (dp_list d) ++
                     [E_CString (dp0 d); E_CString (dp1 d); E_CString (dp2 d);
                      E_CString (dp3 d); E_CString (dp4 d)] in
            (Ret (Some l),
             {| heap := <[l := mkJieba (C_NewJieba t (dp0 d) (dp1 d) (dp2 d) (dp3 d) (dp4 d)) 0]> (heap w);
                finalizers := {[l]} ∪ finalizers w;
                sharedInstance := sharedInstance w;
                sharedInstanceOnce := sharedInstanceOnce w;
                sharedInstanceLock := sharedInstanceLock w;
                trace := trace w ++ map E_Stat (dp_list d) ++ construct_events d l |})
        end
    end.
Proof.
  unfold NewJieba. unfold bind at 1, pure_call.
  destruct (getDictPaths paths) as [d|p]; [|done].
  unfold bind at 1. rewrite check_exist_eq.
  destruct (snd (stat_prefix (dp_list d))) as [path|] eqn:E; [done|].
  apply stat_prefix_all in E as [-> _].
  munfold. wsimpl. rewrite lookup_insert_eq. wsimpl.
  unfold construct_events. cbn [app].
  f_equal. f_equal; rewrite <- ?app_assoc; cbn [app]; try done.
Qed.

Lemma frozen_refl w : frozen w w.
Proof. intros l o Hl Hf. by exists o. Qed.

Lemma frozen_trans a b c : frozen a b → frozen b c → frozen a c.
Proof.
  intros Hab Hbc l o Hl Hf.
  destruct (Hab l o Hl Hf) as (o1 & Hl1 & Hf1 & Hj1).
  destruct (Hbc l o1 Hl1) as (o2 & Hl2 & Hf2 & Hj2); [congruence|].
  exists o2. split_and!; [done|congruence|auto].
Qed.

Lemma steady_refl w : steady w w.
Proof. split_and!; [apply frozen_refl|done..]. Qed.

Lemma steady_trans a b c : steady a b → steady b c → steady a c.
Proof.
  intros (F1 & S1 & O1) (F2 & S2 & O2).
  split_and!; [by eapply frozen_trans|congruence..].
Qed.

Lemma steady_heap w w' :
  heap w' = heap w → sharedInstance w' = sharedInstance w →
  sharedInstanceOnce w' = sharedInstanceOnce w → steady w w'.
Proof.
  intros Hh Hs Ho. split_and!; [|done..].
  intros l o Hl Hf. exists o. by rewrite Hh.
Qed.

Lemma pres_pure {A} (r : res A) : preserves (pure_call r).
Proof. intros w. apply steady_refl. Qed.

Lemma pres_ret {A} (a : A) : preserves (ret a).
Proof. intros w. apply steady_refl. Qed.

Lemma pres_throw {A} p : preserves (@throw A p).
Proof. intros w. apply steady_refl. Qed.

Lemma pres_bind {A B} (m : M A) (k : A → M B) :
  preserves m → (∀ a, preserves (k a)) → preserves (bind m k).
Proof.
  intros Hm Hk w. unfold bind. specialize (Hm w).
  destruct (m w) as [[a|p] w1]; cbn [snd] in *; [|done].
  eapply steady_trans; [done|apply Hk].
Qed.

Lemma pres_with_defer {A} (d : M unit) (body : M A) :
  preserves d → preserves body → preserves (with_defer d body).
Proof.
  intros Hd Hb w. unfold with_defer. specialize (Hb w).
  destruct (body w) as [r w1]; cbn [snd] in *. specialize (Hd w1).
  destruct (d w1) as [[[]|p] w2]; cbn [snd] in *; by eapply steady_trans.
Qed.

Lemma pres_emit e : preserves (emit e).
Proof. intros w. by apply steady_heap. Qed.

Lemma pres_native {A} (f : list Event → A) e : preserves (native f e).
Proof. intros w. by apply steady_heap. Qed.

Lemma pres_deref x : preserves (deref x).
Proof.
  intros w. unfold deref. destruct x as [l|]; [|apply steady_refl].
  destruct (heap w !! l); apply steady_refl.
Qed.

Lemma pres_get_sharedInstance : preserves get_sharedInstance.
Proof. intros w. apply steady_refl. Qed.

Lemma pres_CString s : preserves (CString s).
Proof. apply pres_bind; [apply pres_emit|intros; apply pres_ret]. Qed.

Lemma pres_LoadInt32_freed x : preserves (LoadInt32_freed x).
Proof.
  apply pres_bind; [apply pres_deref|intros lo].
  apply pres_bind; [apply pres_emit|intros; apply pres_ret].
Qed.

Lemma pres_load_jieba x : preserves (load_jieba x).
Proof. apply pres_bind; [apply pres_deref|intros; apply pres_ret]. Qed.

Lemma pres_SetFinalizer x b : preserves (SetFinalizer x b).
Proof.
  apply pres_bind; [apply pres_deref|intros lo].
  apply pres_bind; [|intros; apply pres_emit].
  intros w. by apply steady_heap.
Qed.

Lemma pres_new_Jieba j f : preserves (new_Jieba j f).
Proof.
  intros w. unfold new_Jieba. cbv zeta. wsimpl. split_and!; [|done..].
  intros l o Hl Hf. exists o. split_and!; [|done..]. wsimpl.
  rewrite lookup_insert_ne; [done|]. intros <-.
  pose proof (is_fresh (dom (heap w))) as Hfr.
  apply Hfr. apply elem_of_dom. by eexists.
Qed.

Lemma pres_store_nil x : preserves (store_jieba x C_nil).
Proof.
  intros w. unfold store_jieba, deref, bind, modify.
  destruct x as [l|]; [|apply steady_refl].
  destruct (heap w !! l) as [o|] eqn:E; [|apply steady_refl].
  wsimpl. split_and!; [|done..].
  intros l' o' Hl Hf. wsimpl. destruct (decide (l = l')) as [<-|Hne].
  - rewrite lookup_insert_eq. eexists. split; [done|]. wsimpl.
    split; [congruence|done].
  - rewrite lookup_insert_ne; [|done]. by exists o'.
Qed.

Lemma pres_cas x : preserves (CompareAndSwapInt32_freed x 0 1).
Proof.
  intros w. unfold CompareAndSwapInt32_freed, deref, bind, modify, emit, ret.
  destruct x as [l|]; [|apply steady_refl].
  destruct (heap w !! l) as [o|] eqn:E; [|apply steady_refl].
  wsimpl. destruct (Z.eqb_spec (freed o) 0) as [Hz|Hnz]; wsimpl.
  - split_and!; [|done..].
    intros l' o' Hl Hf. wsimpl. destruct (decide (l = l')) as [<-|Hne].
    + congruence.
    + rewrite lookup_insert_ne; [|done]. by exists o'.
  - by apply steady_heap.
Qed.

Lemma pres_check_exist ps : preserves (check_exist ps).
Proof.
  induction ps as [|p rest IH]; cbn [check_exist]; [apply pres_ret|].
  apply pres_bind; [apply pres_emit|intros _].
  destruct (os_IsNotExist (os_Stat p)); [apply pres_throw|done].
Qed.

Lemma pres_scan_result {A} (r : scan A) : preserves (scan_result r).
Proof. destruct r; [apply pres_ret|apply pres_throw..]. Qed.

Ltac pres_step :=
  lazymatch goal with
  | |- preserves (bind _ _) => apply pres_bind; [|intros ?]
  | |- preserves (with_defer _ _) => apply pres_with_defer
  | |- preserves (ret _) => apply pres_ret
  | |- preserves (throw _) => apply pres_throw
  | |- preserves (pure_call _) => apply pres_pure
  | |- preserves (emit _) => apply pres_emit
  | |- preserves (native _ _) => apply pres_native
  | |- preserves (deref _) => apply pres_deref
  | |- preserves get_sharedInstance => apply pres_get_sharedInstance
  | |- preserves (CString _) => apply pres_CString
  | |- preserves (C_free _) => apply pres_emit
  | |- preserves (LoadInt32_freed _) => apply pres_LoadInt32_freed
  | |- preserves (load_jieba _) => apply pres_load_jieba
  | |- preserves (SetFinalizer _ _) => apply pres_SetFinalizer
  | |- preserves (new_Jieba _ _) => apply pres_new_Jieba
  | |- preserves (store_jieba _ C_nil) => apply pres_store_nil
  | |- preserves (CompareAndSwapInt32_freed _ 0 1) => apply pres_cas
  | |- preserves (check_exist _) => apply pres_check_exist
  | |- preserves (scan_result _) => apply pres_scan_result
  | |- preserves (if ?b then _ else _) => destruct b
  end.

Ltac pres := repeat pres_step.

Lemma pres_NewJieba paths : preserves (NewJieba paths).
Proof. unfold NewJieba. pres. Qed.

Lemma pres_Free x : preserves (Free x).
Proof. unfold Free. pres. Qed.

Lemma pres_checkFreed x : preserves (checkFreed x).
Proof. unfold checkFreed. pres. Qed.

Lemma pres_exec o : is_OpGetSharedInstance o = false → preserves (exec o).
Proof.
  destruct o; cbn [is_OpGetSharedInstance exec]; [|done|..]; intros _;
    (apply pres_bind; [|intros; apply pres_ret]);
    first [apply pres_NewJieba | apply pres_Free | idtac].
  all: unfold Cut, CutAll, CutForSearch, Tag, AddWord, AddWordEx, RemoveWord,
         Tokenize, Extract, ExtractWithWeight; cbv zeta.
  all: repeat first [apply pres_checkFreed | pres_step].
Qed.

Lemma pres_modify_lock f :
  preserves (modify (fun w => set_lock (f w) w)).
Proof. intros w. by apply steady_heap. Qed.

Lemma pres_RLock : preserves RLock.
Proof. unfold RLock. apply pres_bind; [apply pres_modify_lock|intros; apply pres_emit]. Qed.

Lemma pres_RUnlock : preserves RUnlock.
Proof. unfold RUnlock. apply pres_bind; [apply pres_modify_lock|intros; apply pres_emit]. Qed.

Lemma pres_shared_check : preserves shared_check.
Proof.
  unfold shared_check.
  apply pres_bind; [apply pres_RLock|intros _].
  apply pres_with_defer; [apply pres_RUnlock|]. pres.
Qed.

Lemma shared_check_live w l o :
  sharedInstance w = Some l → heap w !! l = Some o →
  shared_check w =
    (if negb (Z.eqb (freed o) 0)
     then Panic (Panic_msg "Shared Jieba instance has been freed")
     else Ret (Some l),
     set_trace (trace w ++ [E_RLock; E_LoadFreed l (freed o); E_RUnlock]) w).
Proof.
  intros Hs Hl. unfold shared_check, RLock, RUnlock. munfold. wsimpl.
  rewrite Hs, Hl. wsimpl.
  destruct (negb (freed o =? 0)%Z); wsimpl; rewrite ?Hs;
    unfold set_trace, set_lock; wsimpl; rewrite <- !app_assoc; done.
Qed.

Lemma shared_check_nil w :
  sharedInstance w = None →
  shared_check w =
    (Panic Panic_nil_deref, set_trace (trace w ++ [E_RLock; E_RUnlock]) w).
Proof.
  intros Hs. unfold shared_check, RLock, RUnlock. munfold. wsimpl.
  rewrite Hs. wsimpl.
  unfold set_trace, set_lock; wsimpl; rewrite <- !app_assoc; done.
Qed.

Lemma shared_check_dangling w l :
  sharedInstance w = Some l → heap w !! l = None →
  shared_check w =
    (Panic Panic_nil_deref, set_trace (trace w ++ [E_RLock; E_RUnlock]) w).
Proof.
  intros Hs Hl. unfold shared_check, RLock, RUnlock. munfold. wsimpl.
  rewrite Hs, Hl. wsimpl.
  unfold set_trace, set_lock; wsimpl; rewrite <- !app_assoc; done.
Qed.

(** What [shared_check] adds to the trace never is a construction step,
    and a returned pointer is the value of [sharedInstance]. *)
Lemma shared_check_spec w :
  ∃ d, trace (snd (shared_check w)) = trace w ++ d ∧
       count_ev is_construction d = 0 ∧ count_ev is_NewJieba d = 0 ∧
       ∀ p, fst (shared_check w) = Ret p → p = sharedInstance w.
Proof.
  destruct (sharedInstance w) as [l|] eqn:Hs.
  - destruct (heap w !! l) as [o|] eqn:Hl.
    + rewrite (shared_check_live w l o Hs Hl). eexists. split; [done|].
      split_and!; [done..|]. cbn [fst]. intros p.
      destruct (negb (freed o =? 0)%Z); [done|]. by intros [= <-].
    + rewrite (shared_check_dangling w l Hs Hl). eexists. split; [done|].
      split_and!; done.
  - rewrite (shared_check_nil w Hs). eexists. split; [done|].
    split_and!; done.
Qed.

Lemma GetSharedInstance_done paths w :
  sharedInstanceOnce w = true →
  GetSharedInstance paths w = shared_check w.
Proof.
  intros Ho. unfold GetSharedInstance, bind at 1, Once_Do. by rewrite Ho.
Qed.

Lemma NewJieba_ret paths w x w1 :
  NewJieba paths w = (Ret x, w1) →
  ∃ l d j, x = Some l ∧ heap w !! l = None ∧
    getDictPaths paths = Ret d ∧ snd (stat_prefix (dp_list d)) = None ∧
    w1 = {| heap := <[l := mkJieba j 0]> (heap w);
            finalizers := {[l]} ∪ finalizers w;
            sharedInstance := sharedInstance w;
            sharedInstanceOnce := sharedInstanceOnce w;
            sharedInstanceLock := sharedInstanceLock w;
            trace := trace w ++ map E_Stat (dp_list d) ++ construct_events d l |}.
Proof.
  rewrite NewJieba_eq. destruct (getDictPaths paths) as [d|p]; [|done].
  destruct (snd (stat_prefix (dp_list d))) as [path|] eqn:E; [done|].
  cbv zeta. intros [= <- <-]. eexists _, d, _. split_and!; try done.
  apply not_elem_of_dom. apply is_fresh.
Qed.

Lemma NewJieba_panic paths w p w1 :
  NewJieba paths w = (Panic p, w1) →
  (getDictPaths paths = Panic p ∧ w1 = w) ∨
  ∃ d path, getDictPaths paths = Ret d ∧
    snd (stat_prefix (dp_list d)) = Some path ∧
    p = Panic_msg ("Dictionary file does not exist: " ++ path) ∧
    w1 = set_trace (trace w ++ map E_Stat (fst (stat_prefix (dp_list d)))) w.
Proof.
  rewrite NewJieba_eq. destruct (getDictPaths paths) as [d|q].
  - destruct (snd (stat_prefix (dp_list d))) as [path|] eqn:E; [|done].
    intros [= <- <-]. right. by exists d, path.
  - intros [= <- <-]. by left.
Qed.

Lemma GetSharedInstance_first paths w :
  sharedInstanceOnce w = false →
  GetSharedInstance paths w =
    match NewJieba paths w with
    | (Panic p, w1) => (Panic p, set_once true w1)
    | (Ret x, w1) =>
        (Ret x,
         {| heap := heap w1;
            finalizers := match x with
                          | Some l => finalizers w1 ∖ {[l]}
                          | None => finalizers w1
                          end;
            sharedInstance := x;
            sharedInstanceOnce := true;
            sharedInstanceLock := sharedInstanceLock w1;
            trace := trace w1 ++
                     match x with
                     | Some l => [E_SetFinalizer l false; E_RLock;
                                  E_LoadFreed l 0; E_RUnlock]
                     | None => []
                     end |})
    end.
Proof.
  intros Ho. unfold GetSharedInstance, bind at 1, Once_Do. rewrite Ho.
  unfold with_defer, construct_shared, bind at 1.
  destruct (NewJieba paths w) as [[x|p] w1] eqn:EN; [|done].
  apply NewJieba_ret in EN as (l & d & j & -> & Hfresh & Hd & Hs & ->).
  unfold put_sharedInstance, get_sharedInstance, SetFinalizer. munfold. wsimpl.
  rewrite lookup_insert_eq. wsimpl.
  erewrite shared_check_live; wsimpl; [|done|by rewrite lookup_insert_eq].
  wsimpl. unfold set_trace; wsimpl. by rewrite <- !app_assoc.
Qed.

Lemma count_ev_app p a b : count_ev p (a ++ b) = count_ev p a + count_ev p b.
Proof. unfold count_ev. by rewrite List.filter_app, length_app. Qed.

Lemma count_ev_stats p l :
  (∀ s, p (E_Stat s) = false) → count_ev p (map E_Stat l) = 0.
Proof.
  intros Hp. unfold count_ev. induction l as [|a l IH]; [done|].
  cbn [map List.filter]. by rewrite Hp.
Qed.

Lemma events_of_ret_bind {A B} (m : M A) (f : A → B) w :
  events_of (bind m (fun a => ret (f a))) w = events_of m w.
Proof. unfold events_of, bind, ret. by destruct (m w) as [[a|p] w1]. Qed.

Lemma snd_ret_bind {A B} (m : M A) (f : A → B) w :
  snd (bind m (fun a => ret (f a)) w) = snd (m w).
Proof. unfold bind, ret. by destruct (m w) as [[a|p] w1]. Qed.

Lemma fst_ret_bind {A B} (m : M A) (f : A → B) w b :
  fst (bind m (fun a => ret (f a)) w) = Ret b →
  ∃ a, fst (m w) = Ret a ∧ b = f a.
Proof.
  unfold bind, ret. destruct (m w) as [[a|p] w1]; cbn [fst]; [|done].
  intros [= <-]. by exists a.
Qed.

Lemma events_of_NewJieba paths w :
  events_of (NewJieba paths) w =
    match getDictPaths paths with
    | Panic _ => []
    | Ret d =>
        match snd (stat_prefix (dp_list d)) with
        | Some _ => map E_Stat (fst (stat_prefix (dp_list d)))
        | None => map E_Stat (dp_list d) ++ construct_events d (fresh (dom (heap w)))
        end
    end.
Proof.
  pose proof (NewJieba_eq paths w) as E.
  destruct (getDictPaths paths) as [d|p].
  - destruct (snd (stat_prefix (dp_list d))) as [path|]; cbv zeta in E;
      (eapply events_of_eq; [exact E|done]).
  - eapply events_of_eq; [exact E|]. by rewrite app_nil_r.
Qed.

Lemma events_of_GetSharedInstance_first paths w :
  sharedInstanceOnce w = false →
  ∃ rest,
    events_of (GetSharedInstance paths) w = events_of (NewJieba paths) w ++ rest ∧
    count_ev is_construction rest = 0 ∧ count_ev is_NewJieba rest = 0.
Proof.
  intros Ho. pose proof (GetSharedInstance_first paths w Ho) as E.
  destruct (NewJieba paths w) as [[x|p] w1] eqn:EN.
  - pose proof EN as EN'.
    apply NewJieba_ret in EN' as (l & d & j & -> & Hfresh & Hd & Hs & ->).
    eexists. split; [|split].
    + unfold events_of at 1. rewrite E. cbn [snd trace].
      unfold events_of. rewrite EN. cbn [snd trace].
      rewrite <- app_assoc, !drop_app_length. rewrite <- app_assoc. done.
    + done.
    + done.
  - exists []. rewrite app_nil_r. split; [|done].
    unfold events_of. by rewrite E, EN.
Qed.

Lemma count_NewJieba_NewJieba paths w :
  count_ev is_NewJieba (events_of (NewJieba paths) w) =
    match fst (NewJieba paths w) with
    | Ret _ => 1
    | Panic _ => 0
    end.
Proof.
  rewrite events_of_NewJieba, NewJieba_eq.
  destruct (getDictPaths paths) as [d|p]; [|done].
  destruct (snd (stat_prefix (dp_list d))) as [path|]; cbn [fst].
  - by apply count_ev_stats.
  - rewrite count_ev_app, count_ev_stats; done.
Qed.

Lemma events_of_GetSharedInstance_done paths w :
  sharedInstanceOnce w = true →
  count_ev is_construction (events_of (GetSharedInstance paths) w) = 0 ∧
  count_ev is_NewJieba (events_of (GetSharedInstance paths) w) = 0.
Proof.
  intros Ho. unfold events_of. rewrite (GetSharedInstance_done _ _ Ho).
  destruct (shared_check_spec w) as (d & Ht & Hc & Hn & _).
  by rewrite Ht, drop_app_length.
Qed.

Lemma count_NewJieba_GetSharedInstance paths w :
  count_ev is_NewJieba (events_of (GetSharedInstance paths) w) ≤ 1.
Proof.
  destruct (sharedInstanceOnce w) eqn:Ho.
  - destruct (events_of_GetSharedInstance_done paths w Ho) as [_ ->]. lia.
  - destruct (events_of_GetSharedInstance_first paths w Ho) as (rest & -> & _ & Hn).
    rewrite count_ev_app, Hn, count_NewJieba_NewJieba.
    destruct (fst (NewJieba paths w)); lia.
Qed.

Lemma GetSharedInstance_marks paths w :
  sharedInstanceOnce (snd (GetSharedInstance paths w)) = true.
Proof.
  destruct (sharedInstanceOnce w) eqn:Ho.
  - rewrite (GetSharedInstance_done _ _ Ho).
    destruct (pres_shared_check w) as (_ & _ & ->). done.
  - rewrite (GetSharedInstance_first _ _ Ho).
    by destruct (NewJieba paths w) as [[x|p] w1].
Qed.

Lemma GetSharedInstance_ret paths w p :
  fst (GetSharedInstance paths w) = Ret p →
  sharedInstance (snd (GetSharedInstance paths w)) = p.
Proof.
  destruct (sharedInstanceOnce w) eqn:Ho.
  - rewrite (GetSharedInstance_done _ _ Ho). intros Hr.
    destruct (shared_check_spec w) as (_ & _ & _ & _ & Hp).
    destruct (pres_shared_check w) as (_ & -> & _). symmetry. by apply Hp.
  - rewrite (GetSharedInstance_first _ _ Ho).
    destruct (NewJieba paths w) as [[x|q] w1]; cbn [fst snd sharedInstance]; [|done].
    by intros [= <-].
Qed.

Lemma frozen_GetSharedInstance paths w :
  frozen w (snd (GetSharedInstance paths w)).
Proof.
  destruct (sharedInstanceOnce w) eqn:Ho.
  - rewrite (GetSharedInstance_done _ _ Ho). apply pres_shared_check.
  - rewrite (GetSharedInstance_first _ _ Ho).
    pose proof (pres_NewJieba paths w) as (HF & _ & _).
    destruct (NewJieba paths w) as [[x|q] w1]; cbn [fst snd] in *; exact HF.
Qed.

Lemma exec_frozen o w : frozen w (snd (exec o w)).
Proof.
  destruct (is_OpGetSharedInstance o) eqn:E.
  - destruct o; try done. cbn [exec]. rewrite snd_ret_bind.
    apply frozen_GetSharedInstance.
  - by apply pres_exec.
Qed.

Lemma exec_steady_done o w :
  sharedInstanceOnce w = true → steady w (snd (exec o w)).
Proof.
  intros Ho. destruct (is_OpGetSharedInstance o) eqn:E.
  - destruct o; try done. cbn [exec]. rewrite snd_ret_bind.
    rewrite (GetSharedInstance_done _ _ Ho). apply pres_shared_check.
  - by apply pres_exec.
Qed.

(** Once the guard is marked, no shared call constructs and every shared
    call that returns gives the value [sharedInstance] had. *)
Lemma run_done ops w :
  sharedInstanceOnce w = true →
  Forall (fun e => count_ev is_construction (e_events e) = 0 ∧
                   count_ev is_NewJieba (e_events e) = 0 ∧
                   ∀ p, e_res e = Ret (V_ptr p) → p = sharedInstance w)
         (shared_calls (fst (run ops w))).
Proof.
  revert w. induction ops as [|o ops IH]; intros w Ho; [constructor|].
  cbn [run fst]. unfold shared_calls. cbn [List.filter e_op].
  pose proof (exec_steady_done o w Ho) as (_ & Hs & Ho').
  rewrite Ho in Ho'. specialize (IH _ Ho'). rewrite Hs in IH.
  destruct o; cbn [is_OpGetSharedInstance]; try exact IH.
  constructor; [|exact IH]. cbn [e_events e_res exec].
  rewrite events_of_ret_bind.
  destruct (events_of_GetSharedInstance_done paths w Ho) as [Hc Hn].
  split_and!; [done..|].
  intros p Hp. apply fst_ret_bind in Hp as (a & Ha & [= ->]).
  rewrite (GetSharedInstance_done _ _ Ho) in Ha.
  destruct (shared_check_spec w) as (_ & _ & _ & _ & Hq). by apply Hq.
Qed.

Lemma run_shared ops w :
  native_constructions (shared_calls (fst (run ops w))) ≤ 1 ∧
  Forall (fun e => count_ev is_construction (e_events e) = 0)
         (tail (shared_calls (fst (run ops w)))) ∧
  ∃ q, Forall (fun e => ∀ p, e_res e = Ret (V_ptr p) → p = q)
              (shared_calls (fst (run ops w))).
Proof.
  revert w. induction ops as [|o ops IH]; intros w.
  { split_and!; [|constructor|exists None; constructor].
    unfold native_constructions, count_ev; simpl. lia. }
  cbn [run fst]. unfold shared_calls. cbn [List.filter e_op].
  destruct (is_OpGetSharedInstance o) eqn:E; [|apply IH].
  destruct o; try done. clear E IH. cbn [tail exec].
  pose proof (run_done ops (snd (bind (GetSharedInstance paths)
                                      (fun x => ret (V_ptr x)) w))) as Hd.
  rewrite snd_ret_bind in *. specialize (Hd (GetSharedInstance_marks paths w)).
  fold (shared_calls (fst (run ops (snd (GetSharedInstance paths w))))) in *.
  split_and!.
  - unfold native_constructions. cbn [flat_map e_events].
    rewrite events_of_ret_bind, count_ev_app.
    pose proof (count_NewJieba_GetSharedInstance paths w) as Hle.
    assert (count_ev is_NewJieba (flat_map e_events
              (shared_calls (fst (run ops (snd (GetSharedInstance paths w)))))) = 0)
      as ->; [|lia].
    induction Hd as [|e l (_ & He & _) _ IHl]; [done|].
    cbn [flat_map]. by rewrite count_ev_app, He, IHl.
  - eapply Forall_impl; [exact Hd|]. by intros e (Hc & _).
  - exists (sharedInstance (snd (GetSharedInstance paths w))). constructor.
    + cbn [e_res]. intros p Hp.
      apply fst_ret_bind in Hp as (a & Ha & [= ->]).
      symmetry. by apply GetSharedInstance_ret.
    + eapply Forall_impl; [exact Hd|]. by intros e (_ & _ & Hp).
Qed.

Lemma run_no_shared ops w :
  Forall (fun o => is_OpGetSharedInstance o = false) ops →
  steady w (snd (run ops w)).
Proof.
  intros Hops. revert w. induction Hops as [|o ops Ho _ IH]; intros w.
  - apply steady_refl.
  - cbn [run snd]. eapply steady_trans; [by apply pres_exec|apply IH].
Qed.

Lemma run_frozen ops w : frozen w (snd (run ops w)).
Proof.
  revert w. induction ops as [|o ops IH]; intros w; [apply frozen_refl|].
  cbn [run snd]. eapply frozen_trans; [apply exec_frozen|apply IH].
Qed.

Lemma run_steady_done ops w :
  sharedInstanceOnce w = true → steady w (snd (run ops w)).
Proof.
  revert w. induction ops as [|o ops IH]; intros w Ho; [apply steady_refl|].
  cbn [run snd]. pose proof (exec_steady_done o w Ho) as Hs.
  eapply steady_trans; [exact Hs|]. apply IH.
  destruct Hs as (_ & _ & ->). done.
Qed.

(** C3: in every sequence of calls from process start, the calls of
    [GetSharedInstance] together make at most one native construction; no
    call of [GetSharedInstance] after the first stats a path or
    constructs; all calls that return give the same pointer; the first
    call runs [NewJieba] exactly once (its events are those of one
    [NewJieba] on the same state followed by no construction step; it
    constructs natively once if [NewJieba] returns and not at all
    otherwise, and returns what [NewJieba] returned); and once the guard is
    marked the path arguments do not matter. *)
Theorem GetSharedInstance_constructs_once (ops : list Op) :
  let log := shared_calls (fst (run ops init_world)) in
  native_constructions log ≤ 1 ∧
  (∀ e, e ∈ tail log → count_ev is_construction (e_events e) = 0) ∧
  (∀ e1 e2 p1 p2, e1 ∈ log → e2 ∈ log →
     e_res e1 = Ret (V_ptr p1) → e_res e2 = Ret (V_ptr p2) → p1 = p2) ∧
  (∀ before, Forall (fun o => is_OpGetSharedInstance o = false) before →
     let w := snd (run before init_world) in
     ∀ paths,
       sharedInstanceOnce w = false ∧
       (∃ rest, events_of (GetSharedInstance paths) w =
                  events_of (NewJieba paths) w ++ rest ∧
                count_ev is_construction rest = 0) ∧
       count_ev is_NewJieba (events_of (GetSharedInstance paths) w) =
         match fst (NewJieba paths w) with Ret _ => 1 | Panic _ => 0 end ∧
       (∀ x, fst (NewJieba paths w) = Ret x →
             fst (GetSharedInstance paths w) = Ret x)) ∧
  (∀ w paths paths', sharedInstanceOnce w = true →
     GetSharedInstance paths w = GetSharedInstance paths' w).
Proof.
  intros log. destruct (run_shared ops init_world) as (Hn & Ht & q & Hq).
  fold log in Hn, Ht, Hq. rewrite Forall_forall in Ht, Hq.
  split_and!.
  - exact Hn.
  - exact Ht.
  - intros e1 e2 p1 p2 H1 H2 R1 R2.
    rewrite (Hq e1 H1 p1 R1), (Hq e2 H2 p2 R2). done.
  - intros before Hb w paths.
    destruct (run_no_shared before init_world Hb) as (_ & _ & Ho).
    fold w in Ho. cbn in Ho. split_and!.
    + exact Ho.
    + destruct (events_of_GetSharedInstance_first paths w Ho) as (rest & E & Hc & _).
      by exists rest.
    + destruct (events_of_GetSharedInstance_first paths w Ho) as (rest & -> & _ & Hc).
      rewrite count_ev_app, Hc, count_NewJieba_NewJieba. lia.
    + intros x. rewrite (GetSharedInstance_first _ _ Ho).
      by destruct (NewJieba paths w) as [[y|p] w1].
  - intros w paths paths' Ho. by rewrite !GetSharedInstance_done.
Qed.



(** C5: after construction (guard marked, [sharedInstance] pointing to a
    handle) a call of [GetSharedInstance] takes the read lock, loads the
    freed flag of the shared handle, releases the lock, and panics with
    "Shared Jieba instance has been freed" if the flag was set; otherwise
    it returns the shared handle. *)
Theorem GetSharedInstance_checks_freed (paths : list string) (w : World)
    (l : loc) (o : Jieba) :
  sharedInstanceOnce w = true → sharedInstance w = Some l → heap w !! l = Some o →
  GetSharedInstance paths w =
    (if decide (freed o = 0%Z) then Ret (Some l)
     else Panic (Panic_msg "Shared Jieba instance has been freed"),
     set_trace (trace w ++ [E_RLock; E_LoadFreed l (freed o); E_RUnlock]) w).
Proof.
  intros Ho Hs Hl. rewrite (GetSharedInstance_done _ _ Ho).
  rewrite (shared_check_live w l o Hs Hl).
  destruct (Z.eqb_spec (freed o) 0); by case_decide.
Qed.

Lemma AddWordEx_eq l o s freq tag w :
  heap w !! l = Some o →
  AddWordEx (Some l) s freq tag w =
    (Ret tt, set_trace (trace w ++ [E_CString s; E_CString tag;
                                    E_AddWordEx (jieba o) s (C_int freq) tag;
                                    E_free s; E_free tag]) w).
Proof.
  intros Hl. unfold AddWordEx. munfold. wsimpl. rewrite Hl. wsimpl.
  unfold set_trace; wsimpl. by rewrite <- !app_assoc.
Qed.

Lemma RemoveWord_eq l o s w :
  heap w !! l = Some o →
  RemoveWord (Some l) s w =
    (Ret tt, set_trace (trace w ++ [E_CString s; E_RemoveWord (jieba o) s; E_free s]) w).
Proof.
  intros Hl. unfold RemoveWord. munfold. wsimpl. rewrite Hl. wsimpl.
  unfold set_trace; wsimpl. by rewrite <- !app_assoc.
Qed.

(** C6: [AddWord], [AddWordEx] and [RemoveWord] never load the freed
    flag: whatever the state of the handle (freed included), they copy
    their strings, make the native call with the handle's native reference
    and return. *)
Theorem dictionary_ops_skip_freed_check (w : World) (l : loc) (o : Jieba)
    (s tag : string) (freq : Z) :
  heap w !! l = Some o →
  AddWord (Some l) s w =
    (Ret tt, set_trace (trace w ++ [E_CString s; E_AddWord (jieba o) s; E_free s]) w) ∧
  AddWordEx (Some l) s freq tag w =
    (Ret tt, set_trace (trace w ++ [E_CString s; E_CString tag;
                                    E_AddWordEx (jieba o) s (C_int freq) tag;
                                    E_free s; E_free tag]) w) ∧
  RemoveWord (Some l) s w =
    (Ret tt, set_trace (trace w ++ [E_CString s; E_RemoveWord (jieba o) s; E_free s]) w).
Proof.
  intros Hl. split_and!;
    [by apply AddWord_eq|by apply AddWordEx_eq|by apply RemoveWord_eq].
Qed.

Lemma checkFreed_eq l o w :
  heap w !! l = Some o →
  checkFreed (Some l) w =
    (if negb (Z.eqb (freed o) 0)
     then Panic (Panic_msg "Jieba instance has been freed") else Ret tt,
     set_trace (trace w ++ [E_LoadFreed l (freed o)]) w).
Proof.
  intros Hl. unfold checkFreed. munfold. wsimpl. rewrite Hl. wsimpl.
  by destruct (negb (freed o =? 0)%Z).
Qed.

Lemma Free_live l o w :
  heap w !! l = Some o → freed o = 0%Z →
  Free (Some l) w =
    (Ret tt,
     {| heap := <[l := mkJieba C_nil 1]> (heap w);
        finalizers := finalizers w ∖ {[l]};
        sharedInstance := sharedInstance w;
        sharedInstanceOnce := sharedInstanceOnce w;
        sharedInstanceLock := sharedInstanceLock w;
        trace := trace w ++ [E_CasFreed l true; E_FreeJieba (jieba o);
                             E_SetFinalizer l false] |}).
Proof.
  intros Hl Hf. unfold Free. munfold. wsimpl. rewrite Hl. wsimpl.
  rewrite Hf. cbn [Z.eqb]. wsimpl. rewrite !lookup_insert_eq. wsimpl.
  rewrite !lookup_insert_eq. wsimpl. rewrite insert_insert_eq.
  rewrite lookup_insert_eq. wsimpl.
  by rewrite <- !app_assoc.
Qed.

Lemma Free_freed l o w :
  heap w !! l = Some o → freed o ≠ 0%Z →
  Free (Some l) w = (Ret tt, set_trace (trace w ++ [E_CasFreed l false]) w).
Proof.
  intros Hl Hf. unfold Free. munfold. wsimpl. rewrite Hl. wsimpl.
  by destruct (Z.eqb_spec (freed o) 0).
Qed.

(** C9: the first [Free] of a live handle sets the flag, clears the native
    reference and removes the finalizer; nothing else of the state changes
    (other handles, the shared instance, its guard and lock).  After it,
    whatever calls follow, the handle still has the flag set and a nil
    reference, and [checkFreed] on it panics. *)
Theorem Free_clears_handle (w : World) (l : loc) (o : Jieba) :
  heap w !! l = Some o → freed o = 0%Z →
  Free (Some l) w =
    (Ret tt,
     {| heap := <[l := mkJieba C_nil 1]> (heap w);
        finalizers := finalizers w ∖ {[l]};
        sharedInstance := sharedInstance w;
        sharedInstanceOnce := sharedInstanceOnce w;
        sharedInstanceLock := sharedInstanceLock w;
        trace := trace w ++ [E_CasFreed l true; E_FreeJieba (jieba o);
                             E_SetFinalizer l false] |}) ∧
  ∀ ops, let w' := snd (run ops (snd (Free (Some l) w))) in
    heap w' !! l = Some (mkJieba C_nil 1) ∧
    fst (checkFreed (Some l) w') = Panic (Panic_msg "Jieba instance has been freed").
Proof.
  intros Hl Hf. split; [by apply Free_live|].
  intros ops w'. pose proof (run_frozen ops (snd (Free (Some l) w))) as HF.
  fold w' in HF. rewrite (Free_live l o w Hl Hf) in HF. cbn [snd] in HF.
  destruct (HF l (mkJieba C_nil 1)) as (o' & Hl' & Hf' & Hj'); [|done|].
  { cbn [heap]. by rewrite lookup_insert_eq. }
  assert (o' = mkJieba C_nil 1) as ->.
  { destruct o' as [j f]. cbn in *. rewrite Hf', Hj'; done. }
  split; [done|]. by rewrite (checkFreed_eq l _ w' Hl').
Qed.

(** C10: when [NewJieba] panics inside the first [GetSharedInstance], the
    panic reaches the caller, the guard is marked and [sharedInstance] stays
    nil; every later call of [GetSharedInstance], whatever paths it gets and
    whatever calls went between, runs no construction step and panics with
    the nil-pointer fault after taking and releasing the read lock. *)
Theorem GetSharedInstance_failed_construction_sticks (w : World)
    (paths : list string) (p : panic) :
  sharedInstanceOnce w = false → sharedInstance w = None →
  fst (NewJieba paths w) = Panic p →
  let w1 := snd (GetSharedInstance paths w) in
  fst (GetSharedInstance paths w) = Panic p ∧
  sharedInstanceOnce w1 = true ∧ sharedInstance w1 = None ∧
  ∀ ops paths', let w2 := snd (run ops w1) in
    GetSharedInstance paths' w2 =
      (Panic Panic_nil_deref, set_trace (trace w2 ++ [E_RLock; E_RUnlock]) w2).
Proof.
  intros Ho Hs Hp w1.
  assert (fst (GetSharedInstance paths w) = Panic p ∧
          sharedInstanceOnce w1 = true ∧ sharedInstance w1 = None) as (H1 & H2 & H3).
  { subst w1. rewrite (GetSharedInstance_first _ _ Ho).
    pose proof (pres_NewJieba paths w) as (_ & HsN & _).
    destruct (NewJieba paths w) as [[x|q] wN]; cbn [fst snd] in *; [done|].
    injection Hp as ->. split_and!; [done..|]. cbn. congruence. }
  split_and!; [done..|].
  intros ops paths' w2.
  destruct (run_steady_done ops w1 H2) as (_ & Hs2 & Ho2). fold w2 in Hs2, Ho2.
  rewrite GetSharedInstance_done by congruence.
  apply shared_check_nil. congruence.
Qed.



















Lemma loop_out_iff mem fuel x s :
  cwordweights_loop fuel mem x s = OutOfFuel ↔
  ∀ n, n < fuel → goes_on mem (nth_addr x n).
Proof.
  revert x s. induction fuel as [|fuel IH]; intros x s.
  - split; [intros _ n Hn; lia|done].
  - cbn [cwordweights_loop]. split.
    + intros Hout n Hn. destruct (mem !! x) as [r|] eqn:Hx; [|done].
      destruct (cw_word r) as [w|] eqn:Hw; [|done].
      destruct n as [|n]; cbn [nth_addr]; [by exists r, w|].
      apply (proj1 (IH _ _) Hout). lia.
    + intros Hall. destruct (Hall 0) as (r & w & Hx & Hw); [lia|].
      cbn [nth_addr] in Hx. rewrite Hx, Hw. apply IH.
      intros n Hn. apply (Hall (S n)). lia.
Qed.

Lemma loop_fuel_mono mem fuel fuel' x s :
  cwordweights_loop fuel mem x s ≠ OutOfFuel → fuel ≤ fuel' →
  cwordweights_loop fuel' mem x s = cwordweights_loop fuel mem x s.
Proof.
  revert fuel' x s. induction fuel as [|fuel IH]; intros fuel' x s Hne Hle; [done|].
  destruct fuel' as [|fuel']; [lia|]. cbn [cwordweights_loop] in *.
  destruct (mem !! x) as [r|]; [|done].
  destruct (cw_word r) as [w|]; [|done].
  apply IH; [done|lia].
Qed.

Lemma nth_addr_add x i t : nth_addr x (i + t) = nth_addr (nth_addr x i) t.
Proof. revert x. induction i as [|i IH]; intros x; [done|]. cbn. apply IH. Qed.

Lemma repeated_element (l : list Z) :
  ¬ NoDup l → ∃ i j a, i < j ∧ l !! i = Some a ∧ l !! j = Some a.
Proof.
  induction l as [|a l IH]; intros Hnd.
  - destruct Hnd. constructor.
  - destruct (decide (a ∈ l)) as [Hin|Hnin].
    + apply list_elem_of_lookup in Hin as [j Hj].
      exists 0, (S j), a. split_and!; [lia|done..].
    + destruct IH as (i & j & b & Hij & Hi & Hj).
      { intros Hl. apply Hnd. by constructor. }
      exists (S i), (S j), b. split_and!; [lia|done..].
Qed.

(** More iterations than [mem] has records: some address was read twice. *)
Lemma goes_on_next mem x :
  (∀ n, n < S (size mem) → goes_on mem (nth_addr x n)) →
  goes_on mem (nth_addr x (S (size mem))).
Proof.
  intros Hall.
  set (l := nth_addr x <$> seq 0 (S (size mem))).
  assert (¬ NoDup l) as Hdup.
  { intros Hnd.
    assert (size (list_to_set l : gset Z) ≤ size (dom mem)) as Hsz.
    { apply subseteq_size.
      intros a (n & -> & Hn)%elem_of_list_to_set%list_elem_of_fmap.
      apply elem_of_seq in Hn. destruct (Hall n) as (r & w & Hr & _); [lia|].
      apply elem_of_dom. by exists r. }
    rewrite size_list_to_set in Hsz by done.
    unfold l in Hsz. rewrite length_fmap, length_seq, size_dom in Hsz. lia. }
  destruct (repeated_element l Hdup) as (i & j & a & Hij & Hi & Hj).
  unfold l in Hi, Hj. rewrite list_lookup_fmap in Hi, Hj.
  destruct (seq 0 (S (size mem)) !! i) as [i'|] eqn:Ei; [|done].
  destruct (seq 0 (S (size mem)) !! j) as [j'|] eqn:Ej; [|done].
  apply lookup_seq in Ei as [-> Hi']. apply lookup_seq in Ej as [-> Hj'].
  cbn in Hi, Hj. injection Hi as Hi. injection Hj as Hj.
  assert (nth_addr x (S (size mem)) = nth_addr x (i + (S (size mem) - j))) as ->.
  { rewrite (nth_addr_add x i), Hi, <- Hj, <- nth_addr_add. f_equal. lia. }
  apply Hall. lia.
Qed.

Lemma goes_on_forever mem x :
  (∀ n, n < S (size mem) → goes_on mem (nth_addr x n)) →
  ∀ n, goes_on mem (nth_addr x n).
Proof.
  intros Hall n. induction n as [n IH] using lt_wf_ind.
  destruct (decide (n < S (size mem))) as [Hlt|Hge]; [by apply Hall|].
  replace n with ((n - S (size mem)) + S (size mem)) by lia.
  rewrite nth_addr_add. apply goes_on_next. intros m Hm.
  rewrite <- nth_addr_add. apply IH. lia.
Qed.

(** [cwordweights] does not depend on the bound on its loop: with any
    larger bound the loop gives the same outcome, and when it is cut off
    at this bound it is cut off at every bound. *)
Lemma cwordweights_fuel mem x fuel :
  S (size mem) ≤ fuel →
  cwordweights_loop fuel mem x [] = cwordweights mem x.
Proof.
  intros Hle. unfold cwordweights.
  destruct (cwordweights_loop (S (size mem)) mem x []) eqn:E.
  - rewrite <- E. apply loop_fuel_mono; [by rewrite E|done].
  - rewrite <- E. apply loop_fuel_mono; [by rewrite E|done].
  - apply loop_out_iff. intros n _. apply goes_on_forever.
    by apply (loop_out_iff mem (S (size mem)) x []).
Qed.

Lemma cwordweights_loop_scan mem x0 rs :
  (0 < eltSize)%Z → holds_array mem x0 rs →
  ∀ pre done f0 post s fuel,
    rs = done ++ map c_record pre ++ mkCWordWeight None f0 :: post →
    length pre < fuel →
    cwordweights_loop fuel mem (x0 + eltSize * Z.of_nat (length done))%Z s =
      Scanned (s ++ map go_pair pre).
Proof.
  intros Hsz (Hx0 & Hend & Hmem).
  induction pre as [|p pre IH]; intros done f0 post s fuel Hrs Hfuel.
  - destruct fuel as [|fuel]; [lia|]. cbn [cwordweights_loop map].
    rewrite (Hmem (length done) (mkCWordWeight None f0)).
    + cbn. by rewrite app_nil_r.
    + rewrite Hrs. cbn. by rewrite list_lookup_middle.
  - destruct fuel as [|fuel]; [cbn in Hfuel; lia|]. cbn [cwordweights_loop map].
    rewrite (Hmem (length done) (c_record p)).
    2:{ rewrite Hrs. cbn. by rewrite list_lookup_middle. }
    cbn [c_record cw_word cw_weight].
    assert (uintptr_add (x0 + eltSize * Z.of_nat (length done)) eltSize =
            (x0 + eltSize * Z.of_nat (length (done ++ [c_record p])))%Z) as ->.
    { unfold uintptr_add. rewrite length_app. cbn [length].
      assert (length rs = length done + S (length pre) + S (length post)) as Hlen.
      { rewrite Hrs, !length_app, length_map. cbn [length]. lia. }
      rewrite Z.mod_small; [lia|]. split; [nia|]. nia. }
    rewrite (IH (done ++ [c_record p]) f0 post).
    + cbn [map go_pair]. by rewrite <- app_assoc.
    + rewrite Hrs. cbn [map]. by rewrite <- app_assoc.
    + cbn in Hfuel. lia.
Qed.

Lemma holds_array_size mem x rs :
  (0 < eltSize)%Z → holds_array mem x rs → length rs ≤ size mem.
Proof.
  intros Hsz (_ & _ & Hmem).
  set (f := fun i : nat => (x + eltSize * Z.of_nat i)%Z).
  assert (Inj (=) (=) f) as Hinj. { intros i j Hij. unfold f in Hij. nia. }
  assert (NoDup (f <$> seq 0 (length rs))) as Hnd.
  { apply NoDup_fmap_2; [done|apply NoDup_seq]. }
  assert (size (list_to_set (f <$> seq 0 (length rs)) : gset Z) = length rs) as <-.
  { rewrite size_list_to_set by done. by rewrite length_fmap, length_seq. }
  rewrite <- (size_dom mem). apply subseteq_size.
  intros a (i & -> & Hi)%elem_of_list_to_set%list_elem_of_fmap.
  apply elem_of_seq in Hi. apply elem_of_dom.
  destruct (lookup_lt_is_Some_2 rs i) as [r Hr]; [lia|].
  exists r. by apply Hmem.
Qed.

(** C7: on a native array whose records before the first null word are
    [pre], [cwordweights] returns the pairs of [pre], in order, and so does
    its loop under every bound above the length of [pre]; when the first
    record has a null word it returns the empty sequence. *)
Theorem cwordweights_until_null (mem : gmap Z CWordWeight) (x : Z)
    (pre : list (string * float64)) (f0 : float64) (post : list CWordWeight) :
  (0 < eltSize)%Z →
  holds_array mem x (map c_record pre ++ mkCWordWeight None f0 :: post) →
  cwordweights mem x = Scanned (map go_pair pre) ∧
  (∀ fuel, length pre < fuel →
     cwordweights_loop fuel mem x [] = Scanned (map go_pair pre)) ∧
  (pre = [] → cwordweights mem x = Scanned []).
Proof.
  intros Hsz Harr.
  assert (∀ fuel, length pre < fuel →
            cwordweights_loop fuel mem x [] = Scanned (map go_pair pre)) as Hloop.
  { intros fuel Hfuel.
    pose proof (cwordweights_loop_scan mem x _ Hsz Harr pre [] f0 post []
                  fuel eq_refl Hfuel) as E.
    cbn [length app] in E. by rewrite Z.mul_0_r, Z.add_0_r in E. }
  assert (cwordweights mem x = Scanned (map go_pair pre)) as E.
  { apply Hloop. pose proof (holds_array_size mem x _ Hsz Harr) as Hle.
    rewrite length_app, length_map in Hle. cbn [length] in Hle. lia. }
  split_and!; [exact E|exact Hloop|]. intros ->. exact E.
Qed.

(** One goroutine alone, run to its end, is the method [Free]. *)
Lemma Free_as_steps l o w :
  heap w !! l = Some o →
  run_sched (Some l) (replicate 5 0) ([F_cas], w) = ([F_done], snd (Free (Some l) w)).
Proof.
  intros Hl. unfold run_sched. cbn [replicate fold_left].
  unfold sys_step at 5. cbn [fst snd lookup list_lookup insert list_insert Free_step].
  destruct (Z.eqb_spec (freed o) 0) as [Hz|Hnz].
  - rewrite (Free_live l o w Hl Hz). cbn [snd].
    unfold CompareAndSwapInt32_freed. munfold. wsimpl. rewrite Hl. wsimpl.
    rewrite Hz. cbn [Z.eqb after fst snd].
    unfold sys_step at 4. cbn [fst snd lookup list_lookup insert list_insert Free_step].
    unfold load_jieba. munfold. wsimpl. rewrite lookup_insert_eq. cbn [after fst snd]. wsimpl.
    unfold sys_step at 3. cbn [fst snd lookup list_lookup insert list_insert Free_step].
    unfold emit. cbn [after fst snd]. wsimpl.
    unfold sys_step at 2. cbn [fst snd lookup list_lookup insert list_insert Free_step].
    unfold store_jieba. munfold. wsimpl. rewrite lookup_insert_eq. cbn [after fst snd]. wsimpl.
    unfold sys_step at 1. cbn [fst snd lookup list_lookup insert list_insert Free_step].
    unfold SetFinalizer. munfold. wsimpl. rewrite lookup_insert_eq. cbn [after fst snd]. wsimpl.
    rewrite insert_insert_eq. unfold set_trace, set_finalizers, set_heap. wsimpl.
    by rewrite <- !app_assoc.
  - rewrite (Free_freed l o w Hl Hnz). cbn [snd].
    unfold CompareAndSwapInt32_freed. munfold. wsimpl. rewrite Hl. wsimpl.
    destruct (Z.eqb_spec (freed o) 0); [done|]. cbn [after fst snd].
    done.
Qed.

Lemma guarded_queries_freed l o s hmm w :
  heap w !! l = Some o → freed o ≠ 0%Z →
  let stop := (Panic (Panic_msg "Jieba instance has been freed"),
               set_trace (trace w ++ [E_LoadFreed l (freed o)]) w) in
  Cut (Some l) s hmm w = stop ∧ CutAll (Some l) s w = stop ∧
  CutForSearch (Some l) s hmm w = stop ∧ Tag (Some l) s w = stop.
Proof.
  intros Hl Hf stop. subst stop.
  assert (∀ A (k : M A),
            bind (checkFreed (Some l)) (fun _ => k) w =
              (Panic (Panic_msg "Jieba instance has been freed"),
               set_trace (trace w ++ [E_LoadFreed l (freed o)]) w)) as Hstop.
  { intros A k. unfold bind. rewrite (checkFreed_eq l o w Hl).
    by destruct (Z.eqb_spec (freed o) 0). }
  split_and!; apply Hstop.
Qed.


Lemma Extract_eq l o s topk w :
  heap w !! l = Some o →
  Extract (Some l) s topk w =
    (Ret (cstrings (C_Extract (trace w ++ [E_CString s]) (jieba o) s (C_int topk))),
     set_trace (trace w ++ [E_CString s; E_Extract (jieba o) s (C_int topk);
                            E_FreeWords; E_free s]) w).
Proof.
  intros Hl. unfold Extract. munfold. wsimpl. rewrite Hl. wsimpl.
  unfold set_trace; wsimpl. by rewrite <- !app_assoc.
Qed.

Lemma ExtractWithWeight_starts l o s topk w :
  heap w !! l = Some o →
  ∃ rest, events_of (ExtractWithWeight (Some l) s topk) w =
    E_CString s :: E_ExtractWithWeight (jieba o) s (C_int topk) :: rest.
Proof.
  intros Hl. unfold events_of, ExtractWithWeight. unfold scan_result. munfold. wsimpl.
  rewrite Hl. wsimpl.
  destruct (cwordweights _ _); wsimpl;
    rewrite <- ?app_assoc; rewrite drop_app_length; by eexists.
Qed.

End Properties.

(** ** Acquisitions and releases along the trace *)
Section Flows.
Context `{Env}.
Variables acq rel : Event → bool.

Lemma net_nil : net acq rel [] = 0%Z.
Proof. done. Qed.

Lemma net_app d1 d2 : net acq rel (d1 ++ d2) = (net acq rel d1 + net acq rel d2)%Z.
Proof. unfold net. rewrite !count_ev_app. lia. Qed.

Lemma net_one e :
  net acq rel [e] = (Z.b2z (acq e) - Z.b2z (rel e))%Z.
Proof. unfold net, count_ev. cbn. by destruct (acq e), (rel e). Qed.

Lemma flows_still {A} (m : M A) n :
  (∀ w, trace (snd (m w)) = trace w) → n = 0%Z → flows acq rel n m.
Proof. intros Hm -> w. exists []. by rewrite app_nil_r, Hm. Qed.

Lemma flows_ret {A} (a : A) n : n = 0%Z → flows acq rel n (ret a).
Proof. by apply flows_still. Qed.

Lemma flows_throw {A} p n : n = 0%Z → flows acq rel n (@throw A p).
Proof. by apply flows_still. Qed.

Lemma flows_pure_call {A} (r : res A) n : n = 0%Z → flows acq rel n (pure_call r).
Proof. by apply flows_still. Qed.

Lemma flows_modify f n :
  (∀ w, trace (f w) = trace w) → n = 0%Z → flows acq rel n (modify f).
Proof. intros Hf. by apply flows_still. Qed.

Lemma flows_deref x n : n = 0%Z → flows acq rel n (deref x).
Proof.
  apply flows_still. intros w. unfold deref.
  destruct x as [l|]; [|done]. by destruct (heap w !! l).
Qed.

Lemma flows_get_sharedInstance n : n = 0%Z → flows acq rel n get_sharedInstance.
Proof. by apply flows_still. Qed.

Lemma flows_new_Jieba j f n : n = 0%Z → flows acq rel n (new_Jieba j f).
Proof. by apply flows_still. Qed.

Lemma flows_emit e a r n :
  acq e = a → rel e = r → n = (Z.b2z a - Z.b2z r)%Z → flows acq rel n (emit e).
Proof. intros <- <- -> w. exists [e]. split; [done|apply net_one]. Qed.

Lemma flows_native {A} (f : list Event → A) e a r n :
  acq e = a → rel e = r → n = (Z.b2z a - Z.b2z r)%Z → flows acq rel n (native f e).
Proof. intros <- <- -> w. exists [e]. split; [done|apply net_one]. Qed.

Lemma returns_emit e : returns (emit e).
Proof. intros w. by exists tt. Qed.

Lemma returns_native {A} (f : list Event → A) e : returns (native f e).
Proof. intros w. by eexists. Qed.

Lemma returns_ret {A} (a : A) : returns (ret a).
Proof. intros w. by exists a. Qed.

Lemma returns_modify f : returns (modify f).
Proof. intros w. by exists tt. Qed.

Lemma returns_bind {A B} (m : M A) (k : A → M B) :
  returns m → (∀ a, returns (k a)) → returns (bind m k).
Proof.
  intros Hm Hk w. unfold bind. destruct (Hm w) as [a Ha].
  destruct (m w) as [r w1]. cbn in Ha. subst r. apply Hk.
Qed.

(** Sequencing: the second part may be skipped by a panic of the first,
    so it has to be neutral unless the first part always returns. *)
Lemma flows_bind {A B} (m : M A) (k : A → M B) a b n :
  flows acq rel a m → (∀ x, flows acq rel b (k x)) →
  (b = 0%Z ∨ returns m) → n = (a + b)%Z →
  flows acq rel n (bind m k).
Proof.
  intros Hm Hk Hside -> w. unfold bind.
  destruct (Hm w) as (d1 & Ht1 & Hn1).
  destruct (m w) as [[x|p] w1] eqn:E; cbn [snd] in *.
  - destruct (Hk x w1) as (d2 & Ht2 & Hn2). exists (d1 ++ d2).
    rewrite Ht2, Ht1, app_assoc, net_app. split; [done|lia].
  - destruct Hside as [->|Hret].
    + exists d1. split; [done|lia].
    + destruct (Hret w) as [x Hx]. by rewrite E in Hx.
Qed.

(** A deferred call runs however the body ends. *)
Lemma flows_with_defer {A} (d : M unit) (body : M A) a b n :
  flows acq rel a body → flows acq rel b d → n = (a + b)%Z →
  flows acq rel n (with_defer d body).
Proof.
  intros Hb Hd -> w. unfold with_defer.
  destruct (Hb w) as (d1 & Ht1 & Hn1). destruct (body w) as [r w1]. cbn [snd] in *.
  destruct (Hd w1) as (d2 & Ht2 & Hn2).
  exists (d1 ++ d2). rewrite net_app.
  destruct (d w1) as [[[]|p] w2]; cbn [snd] in *;
    (split; [by rewrite Ht2, Ht1, app_assoc|lia]).
Qed.

Lemma flows_scan_result {A} (r : scan A) n :
  n = 0%Z → flows acq rel n (scan_result r).
Proof. intros ->. destruct r; by apply flows_still. Qed.

Lemma flows_check_exist ps n :
  (∀ p, acq (E_Stat p) = false) → (∀ p, rel (E_Stat p) = false) →
  n = 0%Z → flows acq rel n (check_exist ps).
Proof.
  intros Ha Hr ->. induction ps as [|p ps IH]; cbn [check_exist].
  - by apply flows_ret.
  - eapply (flows_bind _ _ 0 0);
      [apply (flows_emit _ false false); [apply Ha|apply Hr|done]| |by left|done].
    intros _. destruct (os_IsNotExist (os_Stat p)); [by apply flows_throw|done].
Qed.

Lemma flows_Once_Do f n :
  flows acq rel 0 f → n = 0%Z → flows acq rel n (Once_Do f).
Proof.
  intros Hf -> w. unfold Once_Do. destruct (sharedInstanceOnce w).
  - exists []. by rewrite app_nil_r.
  - apply (flows_with_defer _ _ 0 0); [done| |done].
    by apply flows_modify.
Qed.

End Flows.

Ltac flow_side :=
  first [ left; reflexivity
        | right; repeat first
            [ apply returns_emit | apply returns_native | apply returns_ret
            | apply returns_modify | apply returns_bind; [|intros ?] ] ].

Ltac flow_step :=
  lazymatch goal with
  | |- flows _ _ _ (check_exist _) =>
      apply flows_check_exist; [intros ?; reflexivity|intros ?; reflexivity|]
  | |- flows _ _ _ (Once_Do _) => apply flows_Once_Do
  | |- flows _ _ _ (scan_result _) => apply flows_scan_result
  | |- flows _ _ _ (bind _ _) => eapply flows_bind; [ | intros ? | | ]
  | |- flows _ _ _ (with_defer _ _) => eapply flows_with_defer; [ | | ]
  | |- flows _ _ _ (ret _) => apply flows_ret
  | |- flows _ _ _ (throw _) => apply flows_throw
  | |- flows _ _ _ (pure_call _) => apply flows_pure_call
  | |- flows _ _ _ (modify _) => apply flows_modify; [intros ?; reflexivity|]
  | |- flows _ _ _ (deref _) => apply flows_deref
  | |- flows _ _ _ get_sharedInstance => apply flows_get_sharedInstance
  | |- flows _ _ _ (new_Jieba _ _) => apply flows_new_Jieba
  | |- flows _ _ _ (emit _) => eapply flows_emit; [simpl; reflexivity|simpl; reflexivity|]
  | |- flows _ _ _ (native _ _) => eapply flows_native; [simpl; reflexivity|simpl; reflexivity|]
  | |- flows _ _ _ (if ?b then _ else _) => destruct b
  | |- _ = _ => reflexivity
  | |- _ ∨ _ => flow_side
  end.

Ltac flow :=
  unfold exec, GetSharedInstance, construct_shared, shared_check, NewJieba, Free,
    Cut, CutAll, CutForSearch, Tag, AddWord, AddWordEx, RemoveWord,
    Tokenize, Extract, ExtractWithWeight, checkFreed, CString, C_free, RLock, RUnlock,
    LoadInt32_freed, CompareAndSwapInt32_freed, load_jieba, store_jieba,
    SetFinalizer, put_sharedInstance;
  cbv zeta; repeat flow_step.

Section Balance.
Context `{Env}.

Lemma flows_events acq rel n {A} (m : M A) w :
  flows acq rel n m →
  (Z.of_nat (count_ev acq (events_of m w)) -
   Z.of_nat (count_ev rel (events_of m w)))%Z = n.
Proof.
  intros Hm. destruct (Hm w) as (d & Ht & Hn).
  unfold events_of. by rewrite Ht, drop_app_length.
Qed.






Lemma exec_flows_lock o :
  match o with
  | OpExtractWithWeight _ _ _ => True
  | _ => flows is_RLock is_RUnlock 0 (exec o)
  end.
Proof. destruct o; try exact I; flow. Qed.




(** ** Calls that change nothing but the trace *)

Lemma quiet_refl w : quiet w w.
Proof. unfold quiet. by destruct w. Qed.

Lemma quiet_trans a b c : quiet a b → quiet b c → quiet a c.
Proof. unfold quiet. intros Hab Hbc. rewrite Hbc at 1. rewrite Hab. done. Qed.

Lemma quiet_set_trace t w : quiet w (set_trace t w).
Proof. done. Qed.

Lemma kq_still {A} (m : M A) : (∀ w, snd (m w) = w) → keeps_quiet m.
Proof. intros Hm w. rewrite Hm. apply quiet_refl. Qed.

Lemma kq_bind {A B} (m : M A) (k : A → M B) :
  keeps_quiet m → (∀ a, keeps_quiet (k a)) → keeps_quiet (bind m k).
Proof.
  intros Hm Hk w. unfold bind. specialize (Hm w).
  destruct (m w) as [[a|p] w1]; cbn [snd] in *; [|done].
  eapply quiet_trans; [done|apply Hk].
Qed.

Lemma kq_with_defer {A} (d : M unit) (body : M A) :
  keeps_quiet d → keeps_quiet body → keeps_quiet (with_defer d body).
Proof.
  intros Hd Hb w. unfold with_defer. specialize (Hb w).
  destruct (body w) as [r w1]; cbn [snd] in *. specialize (Hd w1).
  destruct (d w1) as [[[]|p] w2]; cbn [snd] in *; by eapply quiet_trans.
Qed.

Lemma kq_emit e : keeps_quiet (emit e).
Proof. intros w. apply quiet_set_trace. Qed.

Lemma kq_native {A} (f : list Event → A) e : keeps_quiet (native f e).
Proof. intros w. apply quiet_set_trace. Qed.

Lemma kq_deref x : keeps_quiet (deref x).
Proof.
  apply kq_still. intros w. unfold deref.
  destruct x as [l|]; [|done]. by destruct (heap w !! l).
Qed.

Lemma kq_scan_result {A} (r : scan A) : keeps_quiet (scan_result r).
Proof. destruct r; by apply kq_still. Qed.

End Balance.

Ltac quiet_step :=
  lazymatch goal with
  | |- keeps_quiet (scan_result _) => apply kq_scan_result
  | |- keeps_quiet (bind _ _) => apply kq_bind; [|intros ?]
  | |- keeps_quiet (with_defer _ _) => apply kq_with_defer
  | |- keeps_quiet (ret _) => by apply kq_still
  | |- keeps_quiet (throw _) => by apply kq_still
  | |- keeps_quiet (emit _) => apply kq_emit
  | |- keeps_quiet (native _ _) => apply kq_native
  | |- keeps_quiet (deref _) => apply kq_deref
  | |- keeps_quiet (if ?b then _ else _) => destruct b
  end.

Section Frames.
Context `{Env}.

Lemma exec_quiet o : is_engine_op o = true → keeps_quiet (exec o).
Proof.
  destruct o; cbn [is_engine_op]; try done; intros _;
    unfold exec, Cut, CutAll, CutForSearch, Tag, AddWord, AddWordEx, RemoveWord,
      Tokenize, Extract, ExtractWithWeight, checkFreed, CString, C_free,
      LoadInt32_freed, load_jieba;
    cbv zeta; repeat quiet_step.
Qed.

Lemma exec_quiet_fields o w :
  is_engine_op o = true →
  heap (snd (exec o w)) = heap w ∧ finalizers (snd (exec o w)) = finalizers w ∧
  sharedInstance (snd (exec o w)) = sharedInstance w ∧
  sharedInstanceOnce (snd (exec o w)) = sharedInstanceOnce w ∧
  sharedInstanceLock (snd (exec o w)) = sharedInstanceLock w.
Proof.
  intros Ho. pose proof (exec_quiet o Ho w) as Hq.
  unfold quiet in Hq. rewrite Hq. done.
Qed.

(** X5: the segmentation, extraction and dictionary methods change no
    handle, no finalizer and no package variable: whatever the receiver
    and however they end, only the trace grows. *)
Theorem engine_ops_change_no_state (o : Op) (w : World) :
  is_engine_op o = true →
  let w' := snd (exec o w) in
  heap w' = heap w ∧ finalizers w' = finalizers w ∧
  sharedInstance w' = sharedInstance w ∧
  sharedInstanceOnce w' = sharedInstanceOnce w ∧
  sharedInstanceLock w' = sharedInstanceLock w.
Proof. intros Ho w'. by apply exec_quiet_fields. Qed.


Lemma Free_nil x w :
  (∀ l, x = Some l → heap w !! l = None) →
  Free x w = (Panic Panic_nil_deref, w).
Proof.
  intros Hx. unfold Free. munfold. destruct x as [l|]; [|done].
  by rewrite (Hx l eq_refl).
Qed.

Lemma exec_lock o w :
  sharedInstanceLock (snd (exec o w)) = sharedInstanceLock w.
Proof.
  destruct (is_engine_op o) eqn:Ho.
  { by destruct (exec_quiet_fields o w Ho) as (_ & _ & _ & _ & ?). }
  destruct o; try done; cbn [exec]; rewrite snd_ret_bind.
  - rewrite NewJieba_eq. destruct (getDictPaths paths) as [d|p]; [|done].
    by destruct (snd (stat_prefix (dp_list d))).
  - destruct (sharedInstanceOnce w) eqn:Hon.
    + rewrite (GetSharedInstance_done _ _ Hon).
      destruct (sharedInstance w) as [l|] eqn:Hs.
      * destruct (heap w !! l) as [o|] eqn:Hl.
        -- by rewrite (shared_check_live w l o Hs Hl).
        -- by rewrite (shared_check_dangling w l Hs Hl).
      * by rewrite (shared_check_nil w Hs).
    + rewrite (GetSharedInstance_first _ _ Hon), NewJieba_eq.
      destruct (getDictPaths paths) as [d|p]; [|done].
      by destruct (snd (stat_prefix (dp_list d))).
  - destruct x as [l|]; [|by rewrite Free_nil].
    destruct (heap w !! l) as [o|] eqn:Hl.
    + destruct (decide (freed o = 0%Z)) as [Hz|Hnz].
      * by rewrite (Free_live l o w Hl Hz).
      * by rewrite (Free_freed l o w Hl Hnz).
    + rewrite Free_nil; [done|]. by intros ? [= <-].
Qed.

(** X4: no call leaves the read lock held: the reader count after any
    call is what it was before, and [GetSharedInstance], however it ends,
    makes as many [RUnlock] as [RLock] calls. *)
Theorem read_lock_is_released (o : Op) (w : World) :
  sharedInstanceLock (snd (exec o w)) = sharedInstanceLock w ∧
  ∀ paths,
    count_ev is_RLock (events_of (GetSharedInstance paths) w) =
    count_ev is_RUnlock (events_of (GetSharedInstance paths) w).
Proof.
  split; [apply exec_lock|]. intros paths.
  pose proof (exec_flows_lock (OpGetSharedInstance paths)) as Hf. cbn beta iota in Hf.
  pose proof (flows_events _ _ _ _ w Hf) as E.
  cbn [exec] in E. rewrite events_of_ret_bind in E. lia.
Qed.

(** ** The state invariant *)

Lemma wf_init : wf_state init_world.
Proof.
  unfold wf_state, init_world. cbn [heap finalizers sharedInstance sharedInstanceOnce].
  split_and!.
  - intros l o Hl. by rewrite lookup_empty in Hl.
  - intros l Hl. by apply not_elem_of_empty in Hl.
  - intros l Hl. done.
Qed.

Lemma wf_fields w w' :
  heap w' = heap w → finalizers w' = finalizers w →
  sharedInstance w' = sharedInstance w →
  (sharedInstanceOnce w = true → sharedInstanceOnce w' = true) →
  wf_state w → wf_state w'.
Proof.
  intros Hh Hf Hs Ho (Ha & Hb & Hc). unfold wf_state. rewrite Hh, Hf, Hs.
  split_and!; [done..|]. intros l Hl. destruct (Hc l Hl) as (? & ? & ?). auto.
Qed.

Lemma wf_NewJieba paths w : wf_state w → wf_state (snd (NewJieba paths w)).
Proof.
  intros Hw. rewrite NewJieba_eq. destruct (getDictPaths paths) as [d|p]; [|done].
  destruct (snd (stat_prefix (dp_list d))) as [path|].
  { by apply (wf_fields w). }
  cbv zeta. cbn [snd]. destruct Hw as (Ha & Hb & Hc).
  assert (heap w !! fresh (dom (heap w)) = None) as Hfresh.
  { apply not_elem_of_dom. apply is_fresh. }
  set (l := fresh (dom (heap w))) in *.
  split_and!; cbn [heap finalizers sharedInstance sharedInstanceOnce].
  - intros l' o'. destruct (decide (l = l')) as [<-|Hne].
    + rewrite lookup_insert_eq. intros [= <-]. by left.
    + rewrite lookup_insert_ne by done. apply Ha.
  - intros l' [->%elem_of_singleton|Hin]%elem_of_union.
    + rewrite lookup_insert_eq. by eexists.
    + destruct (Hb l' Hin) as (o' & Hl' & Hf'). exists o'.
      rewrite lookup_insert_ne; [done|]. intros <-. congruence.
  - intros l' Hs. destruct (Hc l' Hs) as ([o' Hl'] & Hnf & Ho).
    assert (l ≠ l') as Hne by (intros <-; congruence).
    split_and!; [| |done].
    2:{ intros [?%elem_of_singleton|?]%elem_of_union; [congruence|done]. }
    rewrite lookup_insert_ne by done. by eexists.
Qed.

Lemma wf_Free x w : wf_state w → wf_state (snd (Free x w)).
Proof.
  intros Hw. destruct x as [l|]; [|by rewrite Free_nil].
  destruct (heap w !! l) as [o|] eqn:Hl.
  2:{ rewrite Free_nil; [done|]. by intros ? [= <-]. }
  destruct (decide (freed o = 0%Z)) as [Hz|Hnz].
  2:{ rewrite (Free_freed l o w Hl Hnz). by apply (wf_fields w). }
  rewrite (Free_live l o w Hl Hz). cbn [snd]. destruct Hw as (Ha & Hb & Hc).
  split_and!; cbn [heap finalizers sharedInstance sharedInstanceOnce].
  - intros l' o'. destruct (decide (l = l')) as [<-|Hne].
    + rewrite lookup_insert_eq. intros [= <-]. by right.
    + rewrite lookup_insert_ne by done. apply Ha.
  - intros l' [Hin Hne%not_elem_of_singleton]%elem_of_difference.
    destruct (Hb l' Hin) as (o' & Hl' & Hf'). exists o'.
    by rewrite lookup_insert_ne.
  - intros l' Hs. destruct (Hc l' Hs) as ([o' Hl'] & Hnf & Ho).
    split_and!; [| |done].
    2:{ by intros [? _]%elem_of_difference. }
    destruct (decide (l = l')) as [<-|Hne].
    + rewrite lookup_insert_eq. by eexists.
    + rewrite lookup_insert_ne by done. by eexists.
Qed.

Lemma wf_shared_check w : wf_state w → wf_state (snd (shared_check w)).
Proof.
  intros Hw. destruct (sharedInstance w) as [l|] eqn:Hs.
  - destruct (heap w !! l) as [o|] eqn:Hl.
    + rewrite (shared_check_live w l o Hs Hl). by apply (wf_fields w).
    + rewrite (shared_check_dangling w l Hs Hl). by apply (wf_fields w).
  - rewrite (shared_check_nil w Hs). by apply (wf_fields w).
Qed.

Lemma wf_GetSharedInstance paths w :
  wf_state w → wf_state (snd (GetSharedInstance paths w)).
Proof.
  intros Hw. destruct (sharedInstanceOnce w) eqn:Hon.
  { rewrite (GetSharedInstance_done _ _ Hon). by apply wf_shared_check. }
  rewrite (GetSharedInstance_first _ _ Hon).
  pose proof (wf_NewJieba paths w Hw) as Hw1.
  destruct (NewJieba paths w) as [[x|p] w1] eqn:EN; cbn [snd] in *.
  - apply NewJieba_ret in EN as (l & d & j & -> & Hfresh & Hd & Hst & ->).
    destruct Hw1 as (Ha & Hb & Hc).
    cbn [heap finalizers sharedInstance sharedInstanceOnce] in *.
    split_and!; cbn [heap finalizers sharedInstance sharedInstanceOnce].
    + done.
    + intros l' [Hin Hne]%elem_of_difference. by apply Hb.
    + intros l' [= <-]. split_and!; [| |done].
      * rewrite lookup_insert_eq. by eexists.
      * intros [_ Hn]%elem_of_difference. apply Hn. by apply elem_of_singleton.
  - destruct Hw1 as (Ha & Hb & Hc). split_and!; [done..|].
    intros l Hl. destruct (Hc l Hl) as (? & ? & ?). done.
Qed.

Lemma wf_exec o w : wf_state w → wf_state (snd (exec o w)).
Proof.
  intros Hw. destruct (is_engine_op o) eqn:Ho.
  { destruct (exec_quiet_fields o w Ho) as (? & ? & ? & Hon & _).
    apply (wf_fields w); try done. intros. by rewrite Hon. }
  destruct o; try done; cbn [exec]; rewrite snd_ret_bind.
  - by apply wf_NewJieba.
  - by apply wf_GetSharedInstance.
  - by apply wf_Free.
Qed.

Lemma wf_run ops w : wf_state w → wf_state (snd (run ops w)).
Proof.
  revert w. induction ops as [|o ops IH]; intros w Hw; [done|].
  cbn [run snd]. apply IH. by apply wf_exec.
Qed.



(** X8: in every state the public functions can produce, a handle that
    has a finalizer is live (flag 0): when the finalizer runs [Free] on
    it, that call makes the native release. *)
Theorem finalizer_only_on_live_handle (ops : list Op) (l : loc) :
  let w := snd (run ops init_world) in
  l ∈ finalizers w →
  ∃ o, heap w !! l = Some o ∧ freed o = 0%Z ∧
       count_ev is_FreeJieba (events_of (Free (Some l)) w) = 1.
Proof.
  intros w Hin. destruct (wf_run ops init_world wf_init) as (_ & Hb & _).
  destruct (Hb l Hin) as (o & Hl & Hf). exists o. split_and!; [done..|].
  rewrite (events_of_eq _ w _ _
             [E_CasFreed l true; E_FreeJieba (jieba o); E_SetFinalizer l false]
             (Free_live l o w Hl Hf)); done.
Qed.

(** X9: in every state the public functions can produce, the shared
    instance, once set, is a handle without finalizer, and the guard is
    marked. *)
Theorem shared_instance_has_no_finalizer (ops : list Op) (l : loc) :
  let w := snd (run ops init_world) in
  sharedInstance w = Some l →
  is_Some (heap w !! l) ∧ (l ∉ finalizers w) ∧ sharedInstanceOnce w = true.
Proof.
  intros w Hs. destruct (wf_run ops init_world wf_init) as (_ & _ & Hc).
  by apply Hc.
Qed.

(** X10: once the shared instance has been freed, every later call of
    [GetSharedInstance], whatever calls went between and whatever paths
    it gets, panics with "Shared Jieba instance has been freed" and
    constructs nothing. *)
Theorem freed_shared_instance_stays_freed (w : World) (l : loc) (o : Jieba)
    (ops : list Op) (paths : list string) :
  sharedInstanceOnce w = true → sharedInstance w = Some l →
  heap w !! l = Some o → freed o ≠ 0%Z →
  let w' := snd (run ops w) in
  fst (GetSharedInstance paths w') =
    Panic (Panic_msg "Shared Jieba instance has been freed") ∧
  count_ev is_construction (events_of (GetSharedInstance paths) w') = 0.
Proof.
  intros Hon Hs Hl Hnz w'.
  destruct (run_steady_done ops w Hon) as (Hfr & Hs' & Hon'). fold w' in Hfr, Hs', Hon'.
  destruct (Hfr l o Hl Hnz) as (o' & Hl' & Hf' & _).
  assert (sharedInstanceOnce w' = true) as Hon'' by congruence.
  split.
  - rewrite (GetSharedInstance_done _ _ Hon'').
    rewrite (shared_check_live w' l o') by congruence. cbn [fst].
    rewrite Hf'. by destruct (Z.eqb_spec (freed o) 0).
  - by destruct (events_of_GetSharedInstance_done paths w' Hon'').
Qed.

(** X1: when no resolved path is reported as not existing (an [os.Stat]
    that fails otherwise does not count), [NewJieba] returns a handle that
    did not exist before, with flag 0 and a finalizer; every other handle,
    the shared instance, its guard and lock are unchanged; and the trace
    shows the five stats, the five string copies, the native initializer,
    the finalizer and the five frees, in this order. *)
Theorem NewJieba_constructs (paths : list string) (d : DictPaths) (w : World) :
  getDictPaths paths = Ret d →
  (∀ p, p ∈ dp_list d → os_Stat p ≠ Some ErrNotExist) →
  ∃ l w',
    NewJieba paths w = (Ret (Some l), w') ∧
    heap w !! l = None ∧
    (∃ j, heap w' = <[l := mkJieba j 0]> (heap w)) ∧
    finalizers w' = {[l]} ∪ finalizers w ∧
    sharedInstance w' = sharedInstance w ∧
    sharedInstanceOnce w' = sharedInstanceOnce w ∧
    sharedInstanceLock w' = sharedInstanceLock w ∧
    trace w' = trace w ++ map E_Stat (dp_list d) ++ construct_events d l.
Proof.
  intros Hd Hall.
  assert (snd (stat_prefix (dp_list d)) = None) as Hst.
  { destruct (snd (stat_prefix (dp_list d))) as [path|] eqn:E; [|done].
    apply stat_prefix_missing in E as (Hm & pre & post & Hl & _).
    exfalso. apply (Hall path).
    - rewrite Hl. apply elem_of_app. right. by left.
    - by destruct (os_Stat path) as [[]|]. }
  rewrite NewJieba_eq, Hd, Hst. cbv zeta.
  eexists _, _. split; [done|]. cbn [heap finalizers sharedInstance
    sharedInstanceOnce sharedInstanceLock trace].
  split_and!; try done.
  - apply not_elem_of_dom. apply is_fresh.
  - by eexists.
Qed.

End Frames.

(** ** Methods on a nil handle *)
Section Nil.
Context `{Env}.

Lemma nil_receiver_events (o : Op) (w : World) :
  receiver o = Some None →
  fst (exec o w) = Panic Panic_nil_deref ∧
  ∃ d, events_of (exec o) w = d ∧ count_ev is_native_call d = 0 ∧
       count_ev is_CString d = count_ev is_free d.
Proof.
  destruct o; cbn [receiver]; try done; intros [= ->];
    unfold events_of, exec, Free, Cut, CutAll, CutForSearch, Tag, AddWord,
      AddWordEx, RemoveWord, Tokenize, Extract, ExtractWithWeight, checkFreed;
    munfold; wsimpl; (split; [done|]); eexists; (split; [reflexivity|]);
    rewrite <- ?app_assoc, ?drop_app_length, ?drop_all; done.
Qed.

(** X6: every method called on a nil handle panics with the nil-pointer
    fault and makes no call into the engine. *)
Theorem nil_handle_panics (o : Op) (w : World) :
  receiver o = Some None →
  fst (exec o w) = Panic Panic_nil_deref ∧
  count_ev is_native_call (events_of (exec o) w) = 0.
Proof.
  intros Hr. destruct (nil_receiver_events o w Hr) as (Hp & d & <- & Hn & _).
  done.
Qed.

End Nil.

(** ** Integer arguments and the weighted extraction *)
Section Marshal.
Context `{Env}.

Lemma C_int_small n : (- 2 ^ 31 ≤ n < 2 ^ 31)%Z → C_int n = n.
Proof. intros Hn. unfold C_int. rewrite Z.mod_small; lia. Qed.

Lemma C_int_wraps n : C_int (n + 2 ^ 32) = C_int n.
Proof.
  unfold C_int. f_equal.
  replace (n + 2 ^ 32 + 2 ^ 31)%Z with (n + 2 ^ 31 + 1 * 2 ^ 32)%Z by lia.
  by rewrite Z_mod_plus_full.
Qed.

(** X11: [topk] and [freq] reach the engine through [C.int]: arguments
    that differ by [2^32] give the same call, and an argument in the
    32-bit range is passed as it is. *)
Theorem int_arguments_wrap (x : ptr) (s tag : string) (n : Z) (w : World) :
  Extract x s (n + 2 ^ 32) w = Extract x s n w ∧
  ExtractWithWeight x s (n + 2 ^ 32) w = ExtractWithWeight x s n w ∧
  AddWordEx x s (n + 2 ^ 32) tag w = AddWordEx x s n tag w ∧
  ((- 2 ^ 31 ≤ n < 2 ^ 31)%Z → ∀ l o, heap w !! l = Some o →
     events_of (Extract (Some l) s n) w =
       [E_CString s; E_Extract (jieba o) s n; E_FreeWords; E_free s]).
Proof.
  split_and!.
  - unfold Extract. by rewrite C_int_wraps.
  - unfold ExtractWithWeight. by rewrite C_int_wraps.
  - unfold AddWordEx. by rewrite C_int_wraps.
  - intros Hn l o Hl. eapply events_of_eq; [by apply Extract_eq|].
    by rewrite (C_int_small n Hn).
Qed.



(** X13: on a handle in any state, when the engine answers with an
    array whose records before the first null word are [pre],
    [ExtractWithWeight] returns the pairs of [pre] in order, after one
    engine call, and releases the array and the string copy. *)
Theorem ExtractWithWeight_returns_pairs (l : loc) (o : Jieba) (s : string)
    (topk : Z) (w : World) (x : Z) (mem : gmap Z CWordWeight)
    (pre : list (string * float64)) (f0 : float64) (post : list CWordWeight) :
  (0 < eltSize)%Z →
  heap w !! l = Some o →
  C_ExtractWithWeight (trace w ++ [E_CString s]) (jieba o) s (C_int topk) = (x, mem) →
  holds_array mem x (map c_record pre ++ mkCWordWeight None f0 :: post) →
  ExtractWithWeight (Some l) s topk w =
    (Ret (map go_pair pre),
     set_trace (trace w ++ [E_CString s; E_ExtractWithWeight (jieba o) s (C_int topk);
                            E_FreeWordWeights; E_free s]) w).
Proof.
  intros Hsz Hl HC Harr.
  assert (cwordweights mem x = Scanned (map go_pair pre)) as E.
  { unfold cwordweights.
    pose proof (cwordweights_loop_scan mem x _ Hsz Harr pre [] f0 post []
                  (S (size mem)) eq_refl) as Hloop.
    cbn [length app] in Hloop. rewrite Z.mul_0_r, Z.add_0_r in Hloop.
    apply Hloop. pose proof (holds_array_size mem x _ Hsz Harr) as Hle.
    rewrite length_app, length_map in Hle. cbn [length] in Hle. lia. }
  unfold ExtractWithWeight. munfold. wsimpl. rewrite Hl. wsimpl.
  rewrite HC. cbn [fst snd]. rewrite E. wsimpl.
  unfold set_trace; wsimpl. by rewrite <- !app_assoc.
Qed.

Lemma C_int_hmm hmm : C_int (c_int_hmm hmm) = if hmm then 1%Z else 0%Z.
Proof. by destruct hmm. Qed.

(** X15: on a live handle each of [Cut], [CutAll], [CutForSearch] and
    [Tag] loads the flag, copies the text, makes one engine call with the
    handle's reference (and 1 or 0 for the flag [hmm]), returns the strings
    of the array it got, and releases the array and then the copy; nothing
    but the trace changes. *)
Theorem guarded_queries_on_live_handle (l : loc) (o : Jieba) (s : string)
    (hmm : bool) (w : World) :
  heap w !! l = Some o → freed o = 0%Z →
  let t := trace w ++ [E_LoadFreed l 0; E_CString s] in
  let h := if hmm then 1%Z else 0%Z in
  Cut (Some l) s hmm w =
    (Ret (cstrings (C_Cut t (jieba o) s h)),
     set_trace (t ++ [E_Cut (jieba o) s h; E_FreeWords; E_free s]) w) ∧
  CutAll (Some l) s w =
    (Ret (cstrings (C_CutAll t (jieba o) s)),
     set_trace (t ++ [E_CutAll (jieba o) s; E_FreeWords; E_free s]) w) ∧
  CutForSearch (Some l) s hmm w =
    (Ret (cstrings (C_CutForSearch t (jieba o) s h)),
     set_trace (t ++ [E_CutForSearch (jieba o) s h; E_FreeWords; E_free s]) w) ∧
  Tag (Some l) s w =
    (Ret (cstrings (C_Tag t (jieba o) s)),
     set_trace (t ++ [E_Tag (jieba o) s; E_FreeWords; E_free s]) w).
Proof.
  intros Hl Hf t h. subst t h.
  split_and!; unfold Cut, CutAll, CutForSearch, Tag, checkFreed; munfold; wsimpl;
    rewrite Hl; wsimpl; rewrite Hf; cbn [Z.eqb negb]; wsimpl;
    rewrite Hl; wsimpl; rewrite ?C_int_hmm; unfold set_trace; wsimpl;
    by rewrite <- !app_assoc.
Qed.

End Marshal.

(** ** The stages of a race of [Free] calls *)
Section Race.











End Race.

#[local] Existing Instance Demo.env.

(** C1: every query operation is claimed to check the freed flag first and
    to panic on a freed handle before it marshals the text or calls the
    engine.  On a freed handle [Cut] does so ([CutAll], [CutForSearch] and
    [Tag] share its guard, see [guarded_queries_freed]), while [Tokenize],
    [Extract] and [ExtractWithWeight] make no check: they copy the text with
    [C.CString], call the engine with the cleared (nil) reference and
    return. *)
Theorem freed_handle_reaches_engine :
  Tokenize (Some 1%positive) "ab" DefaultMode false Demo.freed_world =
    (Ret [mkWord "ab" 0 2],
     set_trace [E_CString "ab"; E_Tokenize C_nil "ab" 0 0; E_free_array; E_free "ab"]
       Demo.freed_world) ∧
  Extract (Some 1%positive) "ab" 5 Demo.freed_world =
    (Ret ["ab"],
     set_trace [E_CString "ab"; E_Extract C_nil "ab" 5; E_FreeWords; E_free "ab"]
       Demo.freed_world) ∧
  ExtractWithWeight (Some 1%positive) "ab" 5 Demo.freed_world =
    (Ret [mkWordWeight "a" 3%Z; mkWordWeight "b" 2%Z],
     set_trace [E_CString "ab"; E_ExtractWithWeight C_nil "ab" 5; E_FreeWordWeights;
                E_free "ab"] Demo.freed_world) ∧
  Cut (Some 1%positive) "ab" false Demo.freed_world =
    (Panic (Panic_msg "Jieba instance has been freed"),
     set_trace [E_LoadFreed 1%positive 1] Demo.freed_world).
Proof. split_and!; vm_compute; reflexivity. Qed.


Lemma GetSharedInstance_constructs_once_witness :
  native_constructions
    (shared_calls (fst (run
       [OpGetSharedInstance []; OpGetSharedInstance ["missing.utf8"];
        OpNewJieba []; OpGetSharedInstance ["x"]] init_world))) ≤ 1 ∧
  sharedInstanceOnce (snd (run [OpNewJieba []] init_world)) = false.
Proof.
  destruct (GetSharedInstance_constructs_once
              [OpGetSharedInstance []; OpGetSharedInstance ["missing.utf8"];
               OpNewJieba []; OpGetSharedInstance ["x"]]) as (Hn & _ & _ & Hfirst & _).
  split; [exact Hn|].
  destruct (Hfirst [OpNewJieba []]) with (paths := @nil string) as (Ho & _).
  - repeat constructor.
  - exact Ho.
Defined.


Lemma GetSharedInstance_checks_freed_witness :
  GetSharedInstance ["x"]
    (snd (run [OpGetSharedInstance []; OpFree (Some 1%positive)] init_world)) =
  (Panic (Panic_msg "Shared Jieba instance has been freed"),
   set_trace
     (trace (snd (run [OpGetSharedInstance []; OpFree (Some 1%positive)] init_world))
      ++ [E_RLock; E_LoadFreed 1%positive 1; E_RUnlock])
     (snd (run [OpGetSharedInstance []; OpFree (Some 1%positive)] init_world))).
Proof.
  apply (GetSharedInstance_checks_freed (H := Demo.env) ["x"] _ 1%positive (mkJieba 0 1));
    reflexivity.
Defined.

Lemma dictionary_ops_skip_freed_check_witness :
  AddWord (Some 1%positive) "w" Demo.freed_world =
    (Ret tt, set_trace [E_CString "w"; E_AddWord C_nil "w"; E_free "w"] Demo.freed_world).
Proof.
  destruct (dictionary_ops_skip_freed_check Demo.freed_world 1%positive
              (mkJieba 0 1) "w" "n" 7 ltac:(reflexivity)) as (Hadd & _ & _).
  exact Hadd.
Defined.

Lemma cwordweights_until_null_witness :
  cwordweights Demo.weights 4096 =
    Scanned [mkWordWeight "a" 3; mkWordWeight "b" 2] ∧
  cwordweights Demo.no_weights 4096 = Scanned [].
Proof.
  split.
  - refine (proj1 (cwordweights_until_null (H := Demo.env) Demo.weights 4096
                     [("a", 3%Z); ("b", 2%Z)] 0%Z [mkCWordWeight (Some "c") 1] _ _)).
    + reflexivity.
    + split; [discriminate|]. split; [discriminate|].
      intros [|[|[|[|i]]]] r E; try discriminate E; injection E as <-; reflexivity.
  - refine (proj2 (proj2 (cwordweights_until_null (H := Demo.env) Demo.no_weights 4096
                     [] 0%Z [mkCWordWeight (Some "b") 2] _ _)) eq_refl).
    + reflexivity.
    + split; [discriminate|]. split; [discriminate|].
      intros [|[|i]] r E; try discriminate E; injection E as <-; reflexivity.
Defined.

Lemma Free_clears_handle_witness :
  heap (snd (run [OpAddWord (Some 1%positive) "w"; OpFree (Some 1%positive)]
               (snd (Free (Some 1%positive) Demo.live_world))))
    !! 1%positive = Some (mkJieba C_nil 1).
Proof.
  destruct (Free_clears_handle (H := Demo.env) Demo.live_world 1%positive (mkJieba 4096 0)
              ltac:(reflexivity) ltac:(reflexivity)) as [_ Hlater].
  exact (proj1 (Hlater [OpAddWord (Some 1%positive) "w"; OpFree (Some 1%positive)])).
Defined.

Lemma GetSharedInstance_failed_construction_sticks_witness :
  fst (GetSharedInstance []
         (snd (GetSharedInstance ["missing.utf8"] init_world))) =
    Panic Panic_nil_deref.
Proof.
  destruct (GetSharedInstance_failed_construction_sticks (H := Demo.env) init_world
              ["missing.utf8"]
              (Panic_msg "Dictionary file does not exist: missing.utf8")
              ltac:(reflexivity) ltac:(reflexivity) ltac:(reflexivity))
    as (_ & _ & _ & Hlater).
  specialize (Hlater [] []). cbn [run snd] in Hlater.
  rewrite Hlater. reflexivity.
Defined.

Lemma NewJieba_constructs_witness :
  ∃ l w',
    NewJieba (H := Denied.env) [] init_world = (Ret (Some l), w') ∧
    finalizers w' = {[l]} ∪ ∅ ∧ sharedInstance w' = None.
Proof.
  destruct (NewJieba_constructs (H := Denied.env) []
              (mkDictPaths "dict/jieba.dict.utf8" "dict/hmm_model.utf8"
                 "dict/user.dict.utf8" "dict/idf.utf8" "dict/stop_words.utf8")
              init_world ltac:(reflexivity) ltac:(discriminate))
    as (l & w' & E & _ & _ & Hfin & Hs & _).
  exists l, w'. split_and!; [exact E|exact Hfin|exact Hs].
Defined.



Lemma engine_ops_change_no_state_witness :
  heap (snd (exec (OpTokenize (Some 1%positive) "ab" SearchMode true) Demo.freed_world)) =
  heap Demo.freed_world.
Proof.
  refine (proj1 (engine_ops_change_no_state (H := Demo.env)
            (OpTokenize (Some 1%positive) "ab" SearchMode true) Demo.freed_world _)).
  reflexivity.
Defined.

Lemma nil_handle_panics_witness :
  fst (exec (OpTokenize None "ab" DefaultMode false) Demo.live_world) =
    Panic Panic_nil_deref.
Proof.
  refine (proj1 (nil_handle_panics (H := Demo.env)
            (OpTokenize None "ab" DefaultMode false) Demo.live_world _)).
  reflexivity.
Defined.


Lemma finalizer_only_on_live_handle_witness :
  ∃ o, heap (snd (run [OpNewJieba []; OpCut (Some 1%positive) "ab" true] init_world))
         !! 1%positive = Some o ∧ freed o = 0%Z.
Proof.
  destruct (finalizer_only_on_live_handle (H := Demo.env)
              [OpNewJieba []; OpCut (Some 1%positive) "ab" true] 1%positive)
    as (o & Hl & Hf & _).
  - vm_compute. reflexivity.
  - exists o. split; [exact Hl|exact Hf].
Defined.

Lemma shared_instance_has_no_finalizer_witness :
  1%positive ∉ finalizers
    (snd (run [OpGetSharedInstance []; OpNewJieba []] init_world)).
Proof.
  refine (proj1 (proj2 (shared_instance_has_no_finalizer (H := Demo.env)
            [OpGetSharedInstance []; OpNewJieba []] 1%positive _))).
  reflexivity.
Defined.

Lemma freed_shared_instance_stays_freed_witness :
  fst (GetSharedInstance ["x"]
         (snd (run [OpNewJieba []; OpFree (Some 1%positive)]
                 (snd (run [OpGetSharedInstance []; OpFree (Some 1%positive)]
                         init_world))))) =
    Panic (Panic_msg "Shared Jieba instance has been freed").
Proof.
  refine (proj1 (freed_shared_instance_stays_freed (H := Demo.env)
            (snd (run [OpGetSharedInstance []; OpFree (Some 1%positive)] init_world))
            1%positive (mkJieba 0 1) [OpNewJieba []; OpFree (Some 1%positive)] ["x"]
            _ _ _ _)); [reflexivity|reflexivity|reflexivity|discriminate].
Defined.

Lemma int_arguments_wrap_witness :
  events_of (Extract (Some 1%positive) "ab" 5) Demo.live_world =
    [E_CString "ab"; E_Extract 4096%Z "ab" 5; E_FreeWords; E_free "ab"] ∧
  Extract (Some 1%positive) "ab" (5 + 2 ^ 32) Demo.live_world =
    Extract (Some 1%positive) "ab" 5 Demo.live_world.
Proof.
  destruct (int_arguments_wrap (H := Demo.env) (Some 1%positive) "ab" "n" 5
              Demo.live_world) as (Hwrap & _ & _ & Hsmall).
  split; [|exact Hwrap].
  apply (Hsmall ltac:(lia) 1%positive (mkJieba 4096 0)). reflexivity.
Defined.


Lemma ExtractWithWeight_returns_pairs_witness :
  ExtractWithWeight (Some 1%positive) "ab" 5 Demo.freed_world =
    (Ret [mkWordWeight "a" 3; mkWordWeight "b" 2],
     set_trace [E_CString "ab"; E_ExtractWithWeight C_nil "ab" 5; E_FreeWordWeights;
                E_free "ab"] Demo.freed_world).
Proof.
  apply (ExtractWithWeight_returns_pairs (H := Demo.env) 1%positive (mkJieba 0 1)
           "ab" 5 Demo.freed_world 4096 Demo.weights [("a", 3%Z); ("b", 2%Z)] 0%Z
           [mkCWordWeight (Some "c") 1]).
  - reflexivity.
  - reflexivity.
  - reflexivity.
  - split; [discriminate|]. split; [discriminate|].
    intros [|[|[|[|i]]]] r E; try discriminate E; injection E as <-; reflexivity.
Defined.


Lemma guarded_queries_on_live_handle_witness :
  Cut (Some 1%positive) "ab" true Demo.live_world =
    (Ret ["ab"],
     set_trace [E_LoadFreed 1%positive 0; E_CString "ab"; E_Cut 4096%Z "ab" 1;
                E_FreeWords; E_free "ab"] Demo.live_world).
Proof.
  refine (proj1 (guarded_queries_on_live_handle (H := Demo.env) 1%positive
            (mkJieba 4096 0) "ab" true Demo.live_world _ _)); reflexivity.
Defined.
